(** * botcase: the spreadsheet-to-text serializer and the response-JSON
    extractor of [src/services/GroqService.ts]

    A shallow embedding of the four private methods [getColumnIndex],
    [getColumnLetter], [convertSheetToText] and [parseGroqResponse] of
    the class [GroqService], together with the parts of the JavaScript
    run time they call ([String.prototype.match] on the four regular
    expressions of the file, [String.prototype.split], [parseInt],
    [JSON.parse], template-literal string conversion).  The other
    methods of the class follow: [convertWorkbookToText],
    [buildContext], [parseQueryResponse], [parseTestScenarioResponse]
    and the public [parseExcelWorkbook], [generateQueries] and
    [generateTestScenarios], with the text-generation client, the
    clock and [JSON.stringify] as what they are given. *)

From Stdlib Require Import ZArith NArith String Ascii.
From Stdlib Require DecimalString DecimalPos DecimalN.
From Equations Require Import Equations.
From stdpp Require Import gmap list.

Local Open Scope Z_scope.
Set Warnings "-register-all".

(** ** JavaScript values used by the service *)

Module JS.

(** A JavaScript string is a sequence of UTF-16 code units; a code
    unit is modelled by its number.  [js] turns a literal into the
    string of its characters' codes. *)
Abbreviation code_unit := N (only parsing).
Abbreviation jsstring := (list N) (only parsing).

Definition js (s : string) : jsstring :=
  N_of_ascii <$> list_ascii_of_string s.

(** Thrown values.  The service throws [Error] objects with a fixed
    message; the run time throws [TypeError] (property access on
    [null] or [undefined]) and [SyntaxError] ([JSON.parse]). *)
Inductive js_error : Type :=
| TypeError
| SyntaxError
| Error (message : jsstring).

(** Completion of a call: a returned value or a thrown one. *)
Inductive completion (A : Type) : Type :=
| Normal (a : A)
| Throw (e : js_error).
Arguments Normal {A} a.
Arguments Throw {A} e.

(** Sequencing: a thrown value propagates. *)
#[global] Instance completion_ret : MRet completion := @Normal.
#[global] Instance completion_bind : MBind completion :=
  fun A B (k : A -> completion B) (c : completion A) =>
    match c with
    | Normal a => k a
    | Throw e => Throw e
    end.

(** [try { body } catch (error) { handler }] *)
Definition try_catch {A} (body : completion A)
    (handler : js_error -> completion A) : completion A :=
  match body with
  | Normal a => Normal a
  | Throw e => handler e
  end.

(** Numbers.  The methods modelled here only compute with integers;
    a JavaScript number holding an integer of magnitude below 2^53
    behaves as that integer, so numbers are modelled by [Z].  From 2^53
    on a JavaScript number rounds, and the model does not follow it
    there: [index * 26 + d], [index--], [row++], [parseInt] and the
    text of a number are those of the run time only as long as the
    numbers involved stay within [MAX_SAFE_INTEGER], and the properties
    below that state what these compute are stated within that
    bound. *)
Abbreviation number := Z (only parsing).

(** [Number.MAX_SAFE_INTEGER] *)
Definition MAX_SAFE_INTEGER : number := 2 ^ 53 - 1.

(** [s.charCodeAt(i)]; the loop that calls it keeps [i] below
    [s.length], where the result is the code unit at [i]. *)
Definition charCodeAt (s : jsstring) (i : nat) : number :=
  match s !! i with
  | Some c => Z.of_N c
  | None => 0
  end.

(** [String.fromCharCode(n)] for [0 <= n < 65536]. *)
Definition fromCharCode (n : number) : jsstring := [Z.to_N n].

(** [ToString] of a non-negative integer up to [MAX_SAFE_INTEGER]:
    its decimal digits, most significant first. *)
Equations? decimal_digits (n : number) (digits : jsstring) : jsstring
    by wf (Z.to_nat n) lt :=
  decimal_digits n digits with decide (n < 10) => {
    | left _ => Z.to_N (48 + n) :: digits;
    | right _ => decimal_digits (n / 10) (Z.to_N (48 + n mod 10) :: digits) }.
Proof.
  assert (n / 10 < n) by (apply Z.div_lt; lia).
  lia.
Qed.

(** [ToString] of an integer-valued number of magnitude up to
    [MAX_SAFE_INTEGER].  (Beyond it the run time prints the shortest
    digits that read back as the same number, and from 10^21 on an
    exponent; the model has the exact digits.) *)
Definition number_to_string (n : number) : jsstring :=
  if decide (n < 0) then 45%N :: decimal_digits (- n) []
  else decimal_digits n [].

(** [parseInt(s)] for a string [s] of decimal digits, which is what
    the service passes (the text matched by [/\d+/]), when the digits
    denote an integer up to [MAX_SAFE_INTEGER] (beyond it the run time
    rounds). *)
Definition parseInt (s : jsstring) : number :=
  foldl (fun value c => value * 10 + (Z.of_N c - 48)) 0 s.

(** [s.split(sep)] for a separator of one code unit. *)
Fixpoint split (sep : code_unit) (s : jsstring) : list jsstring :=
  match s with
  | [] => [[]]
  | c :: s' =>
      if decide (c = sep) then [] :: split sep s'
      else match split sep s' with
           | piece :: pieces => (c :: piece) :: pieces
           | [] => [[c]]
           end
  end.

(** The rest of [s] after the prefix [p], when [s] starts with [p]
    ([s.startsWith(p)] and [s.slice(p.length)]). *)
Fixpoint strip_prefix (p s : jsstring) : option jsstring :=
  match p, s with
  | [], _ => Some s
  | a :: p', b :: s' => if decide (a = b) then strip_prefix p' s' else None
  | _ :: _, [] => None
  end.

(** [s.includes(p)] *)
Fixpoint includes (p s : jsstring) : bool :=
  match strip_prefix p s with
  | Some _ => true
  | None =>
      match s with
      | _ :: s' => includes p s'
      | [] => false
      end
  end.

(** The lines of a template literal, joined by newlines. *)
Fixpoint lines (ls : list jsstring) : jsstring :=
  match ls with
  | [] => []
  | [l] => l
  | l :: ls' => l ++ 10%N :: lines ls'
  end.

End JS.
Import JS.

(** ** Regular expressions

    A backtracking matcher for the fragment of ECMAScript regular
    expressions the service uses: literal characters, a greedy or lazy
    star and a greedy plus over a character class, capture groups and
    sequencing.  Alternatives are explored in the order the language
    prescribes (greedy: longest first; lazy: shortest first), and the
    first success is the match. *)

Module RegExp.

Inductive regex : Type :=
| Chars (s : jsstring)
| Star (greedy : bool) (class : code_unit -> bool)
| Plus (class : code_unit -> bool)
| Group (r : regex)
| Seq (r1 r2 : regex).

(** The classes [\s], [[\s\S]], [[A-Z]] and [\d]. *)
Definition space (c : code_unit) : bool :=
  bool_decide (c ∈ [9; 10; 11; 12; 13; 32; 160; 5760; 8232; 8233;
                    8239; 8287; 12288; 65279]%N)
  || ((8192 <=? c) && (c <=? 8202))%N.
Definition any (c : code_unit) : bool := space c || negb (space c).
Definition upper (c : code_unit) : bool := ((65 <=? c) && (c <=? 90))%N.
Definition digit (c : code_unit) : bool := ((48 <=? c) && (c <=? 57))%N.

Section Matcher.
Context {R : Type}.

Fixpoint star_greedy (class : code_unit -> bool)
    (k : jsstring -> option R) (s : jsstring) : option R :=
  match s with
  | c :: s' =>
      if class c then
        match star_greedy class k s' with
        | Some r => Some r
        | None => k s
        end
      else k s
  | [] => k s
  end.

Fixpoint star_lazy (class : code_unit -> bool)
    (k : jsstring -> option R) (s : jsstring) : option R :=
  match k s with
  | Some r => Some r
  | None =>
      match s with
      | c :: s' => if class c then star_lazy class k s' else None
      | [] => None
      end
  end.

(** [run r s caps k]: match [r] at the front of [s], then continue
    with [k] on the rest and the captures made so far. *)
Fixpoint run (r : regex) (s : jsstring) (caps : list jsstring)
    (k : jsstring -> list jsstring -> option R) : option R :=
  match r with
  | Chars p =>
      match strip_prefix p s with
      | Some s' => k s' caps
      | None => None
      end
  | Star true class => star_greedy class (fun s' => k s' caps) s
  | Star false class => star_lazy class (fun s' => k s' caps) s
  | Plus class =>
      match s with
      | c :: s' =>
          if class c then star_greedy class (fun s'' => k s'' caps) s'
          else None
      | [] => None
      end
  | Group r1 =>
      run r1 s caps
        (fun s' caps' => k s' (caps' ++ [take (length s - length s') s]))
  | Seq r1 r2 => run r1 s caps (fun s' caps' => run r2 s' caps' k)
  end.
End Matcher.

(** [r.exec(s)] for a regular expression without the global flag:
    the match array [[whole, group1, ...]] of the leftmost match, or
    [None] for [null]. *)
Fixpoint exec (r : regex) (s : jsstring) : option (list jsstring) :=
  match run r s [] (fun s' caps => Some (take (length s - length s') s :: caps)) with
  | Some array => Some array
  | None =>
      match s with
      | _ :: s' => exec r s'
      | [] => None
      end
  end.

(** [s.match(r)[0]] where [s] may be [undefined]: a [TypeError] when
    [s] is [undefined] or the match is [null]. *)
Definition match_0 (s : option jsstring) (r : regex) : completion jsstring :=
  match s with
  | Some s =>
      match exec r s with
      | Some (whole :: _) => Normal whole
      | _ => Throw TypeError
      end
  | None => Throw TypeError
  end.

End RegExp.
Import RegExp.

(** ** [JSON.parse]

    A recursive-descent parser for the JSON grammar of ECMA-404, which
    [JSON.parse] accepts: a value between optional white space, where a
    value is an object, an array, a string, a number or one of the
    literals [true], [false] and [null].  A number is kept as the
    integer [mantissa] and the decimal [exponent] of its exact value
    [mantissa * 10^exponent] (the run time rounds it to a double); the
    members of an object are kept in source order. *)

Module JSON.

Inductive value : Type :=
| JNull
| JBool (b : bool)
| JNumber (mantissa exponent : Z)
| JString (s : jsstring)
| JArray (elements : list value)
| JObject (members : list (jsstring * value)).

Inductive parse_result (A : Type) : Type :=
| Parsed (a : A) (rest : jsstring)
| Invalid
| OutOfFuel.
Arguments Parsed {A} a rest.
Arguments Invalid {A}.
Arguments OutOfFuel {A}.

(** JSON white space: tab, line feed, carriage return, space. *)
Definition ws (c : code_unit) : bool :=
  bool_decide (c ∈ [9; 10; 13; 32]%N).

Fixpoint skip_ws (s : jsstring) : jsstring :=
  match s with
  | c :: s' => if ws c then skip_ws s' else s
  | [] => []
  end.

(** The longest prefix of decimal digits, and the rest. *)
Fixpoint digits (s : jsstring) : jsstring * jsstring :=
  match s with
  | c :: s' =>
      if digit c then let '(ds, rest) := digits s' in (c :: ds, rest)
      else ([], s)
  | [] => ([], [])
  end.

(** [int frac? exp?] after the optional minus sign. *)
Definition parse_unsigned (s : jsstring) : option (Z * Z * jsstring) :=
  let '(int, s1) := digits s in
  match int with
  | [] => None
  | d :: more =>
      if bool_decide (d = 48%N) && negb (bool_decide (more = [])) then None
      else
        let '(frac, s2) :=
          match strip_prefix [46%N] s1 with
          | Some s1' => let '(ds, rest) := digits s1' in (Some ds, rest)
          | None => (None, s1)
          end in
        match frac with
        | Some [] => None
        | _ =>
            let fracd := default [] frac in
            let mantissa := parseInt (int ++ fracd) in
            let scale := - Z.of_nat (length fracd) in
            match s2 with
            | e :: s2' =>
                if bool_decide (e ∈ [69; 101]%N) then
                  let '(sign, s3) :=
                    match strip_prefix [43%N] s2', strip_prefix [45%N] s2' with
                    | Some s3, _ => (1, s3)
                    | None, Some s3 => (-1, s3)
                    | None, None => (1, s2')
                    end in
                  let '(ex, s4) := digits s3 in
                  match ex with
                  | [] => None
                  | _ => Some (mantissa, scale + sign * parseInt ex, s4)
                  end
                else Some (mantissa, scale, s2)
            | [] => Some (mantissa, scale, s2)
            end
        end
  end.

Definition parse_number (s : jsstring) : option (Z * Z * jsstring) :=
  match strip_prefix [45%N] s with
  | Some s' =>
      match parse_unsigned s' with
      | Some (m, e, rest) => Some (- m, e, rest)
      | None => None
      end
  | None => parse_unsigned s
  end.

Definition hex_digit (c : code_unit) : option N :=
  if digit c then Some (c - 48)%N
  else if ((65 <=? c) && (c <=? 70))%N then Some (c - 55)%N
  else if ((97 <=? c) && (c <=? 102))%N then Some (c - 87)%N
  else None.

(** The single-character escapes after a backslash. *)
Definition escape (c : code_unit) : option code_unit :=
  if decide (c = 34%N) then Some 34%N
  else if decide (c = 92%N) then Some 92%N
  else if decide (c = 47%N) then Some 47%N
  else if decide (c = 98%N) then Some 8%N
  else if decide (c = 102%N) then Some 12%N
  else if decide (c = 110%N) then Some 10%N
  else if decide (c = 114%N) then Some 13%N
  else if decide (c = 116%N) then Some 9%N
  else None.

(** The characters of a string after its opening quote, up to and
    including the closing quote. *)
Fixpoint parse_chars (s : jsstring) (acc : jsstring)
    : option (jsstring * jsstring) :=
  match s with
  | [] => None
  | c :: s1 =>
      if decide (c = 34%N) then Some (acc, s1)
      else if decide (c = 92%N) then
        match s1 with
        | [] => None
        | e :: s2 =>
            if decide (e = 117%N) then
              match s2 with
              | h1 :: h2 :: h3 :: h4 :: s3 =>
                  match hex_digit h1, hex_digit h2, hex_digit h3, hex_digit h4 with
                  | Some a, Some b, Some c', Some d =>
                      parse_chars s3 (acc ++ [((a * 16 + b) * 16 + c') * 16 + d])%N
                  | _, _, _, _ => None
                  end
              | _ => None
              end
            else
              match escape e with
              | Some c' => parse_chars s2 (acc ++ [c'])
              | None => None
              end
        end
      else if (c <? 32)%N then None
      else parse_chars s1 (acc ++ [c])
  end.

Fixpoint parse_value (fuel : nat) (s : jsstring) {struct fuel}
    : parse_result value :=
  match fuel with
  | O => OutOfFuel
  | S fuel' =>
      match skip_ws s with
      | [] => Invalid
      | c :: s1 =>
          if decide (c = 123%N) then
            match strip_prefix [125%N] (skip_ws s1) with
            | Some s2 => Parsed (JObject []) s2
            | None => parse_members fuel' s1 []
            end
          else if decide (c = 91%N) then
            match strip_prefix [93%N] (skip_ws s1) with
            | Some s2 => Parsed (JArray []) s2
            | None => parse_elements fuel' s1 []
            end
          else if decide (c = 34%N) then
            match parse_chars s1 [] with
            | Some (str, s2) => Parsed (JString str) s2
            | None => Invalid
            end
          else
            match strip_prefix (js "true") (c :: s1),
                  strip_prefix (js "false") (c :: s1),
                  strip_prefix (js "null") (c :: s1) with
            | Some s2, _, _ => Parsed (JBool true) s2
            | _, Some s2, _ => Parsed (JBool false) s2
            | _, _, Some s2 => Parsed JNull s2
            | None, None, None =>
                match parse_number (c :: s1) with
                | Some (m, e, s2) => Parsed (JNumber m e) s2
                | None => Invalid
                end
            end
      end
  end
with parse_elements (fuel : nat) (s : jsstring) (acc : list value)
    {struct fuel} : parse_result value :=
  match fuel with
  | O => OutOfFuel
  | S fuel' =>
      match parse_value fuel' s with
      | Parsed v s1 =>
          match skip_ws s1 with
          | c :: s2 =>
              if decide (c = 44%N) then parse_elements fuel' s2 (acc ++ [v])
              else if decide (c = 93%N) then Parsed (JArray (acc ++ [v])) s2
              else Invalid
          | [] => Invalid
          end
      | Invalid => Invalid
      | OutOfFuel => OutOfFuel
      end
  end
with parse_members (fuel : nat) (s : jsstring)
    (acc : list (jsstring * value)) {struct fuel} : parse_result value :=
  match fuel with
  | O => OutOfFuel
  | S fuel' =>
      match strip_prefix [34%N] (skip_ws s) with
      | Some s1 =>
          match parse_chars s1 [] with
          | Some (key, s2) =>
              match strip_prefix [58%N] (skip_ws s2) with
              | Some s3 =>
                  match parse_value fuel' s3 with
                  | Parsed v s4 =>
                      match skip_ws s4 with
                      | c :: s5 =>
                          if decide (c = 44%N) then
                            parse_members fuel' s5 (acc ++ [(key, v)])
                          else if decide (c = 125%N) then
                            Parsed (JObject (acc ++ [(key, v)])) s5
                          else Invalid
                      | [] => Invalid
                      end
                  | Invalid => Invalid
                  | OutOfFuel => OutOfFuel
                  end
              | None => Invalid
              end
          | None => Invalid
          end
      | None => Invalid
      end
  end.

(** [JSON.parse(text)]: the value of [text], or a [SyntaxError].
    Each recursive call of the parser follows the consumption of a
    character or comes directly from one that does, so twice the
    length of the text is fuel enough. *)
Definition parse (text : jsstring) : completion value :=
  match parse_value (2 * length text + 1) text with
  | Parsed v rest =>
      match skip_ws rest with
      | [] => Normal v
      | _ :: _ => Throw SyntaxError
      end
  | Invalid | OutOfFuel => Throw SyntaxError
  end.

(** *** Parsed values as JavaScript values *)

(** Whether the number [mantissa * 10^exponent] is read as zero: it is
    zero, or so small that the nearest double is zero (at most
    [2^-1075], half the smallest positive double). *)
Definition number_is_zero (mantissa exponent : Z) : bool :=
  (mantissa =? 0)
  || ((exponent <? 0) && (Z.abs mantissa * 2 ^ 1075 <=? 10 ^ (- exponent))).

(** [ToBoolean]: [null], [false], zero and the empty string are falsy. *)
Definition truthy (v : value) : bool :=
  match v with
  | JNull => false
  | JBool b => b
  | JNumber mantissa exponent => negb (number_is_zero mantissa exponent)
  | JString s => negb (bool_decide (s = []))
  | JArray _ | JObject _ => true
  end.

(** The member of an object with a given key; of two members with the
    same key the later one is the property. *)
Fixpoint member (key : jsstring) (members : list (jsstring * value))
    : option value :=
  match members with
  | [] => None
  | (k, v) :: rest =>
      match member key rest with
      | Some v' => Some v'
      | None => if decide (k = key) then Some v else None
      end
  end.

(** [v.key] for a key that no prototype defines (as [id], [query],
    [description], [category]): a [TypeError] on [null], the member of
    an object, and [undefined] ([None]) on every other value. *)
Definition get (v : value) (key : jsstring) : completion (option value) :=
  match v with
  | JNull => Throw TypeError
  | JObject members => Normal (member key members)
  | JBool _ | JNumber _ _ | JString _ | JArray _ => Normal None
  end.

(** [v || fallback] for a possibly undefined [v]. *)
Definition or_else (v : option value) (fallback : value) : value :=
  match v with
  | Some v' => if truthy v' then v' else fallback
  | None => fallback
  end.

End JSON.

(** ** The service

    A sheet is the object the workbook reader produces: the property
    ['!ref'] holds the sheet's range as text ([A1:C7]) when the sheet
    has one, and every other property maps a cell address to a cell
    object, of which the service reads the value [v]. *)

Module GroqService.

(** Cell values: text, an integer-valued number or a boolean, the
    values of which the model has the text.  (Numbers with a
    fractional part, dates and other objects are left out: a property
    of the text below speaks of sheets whose cells hold these three
    kinds of value.) *)
Inductive cell_value : Type :=
| VString (s : jsstring)
| VNumber (n : number)
| VBoolean (b : bool).

Record cell : Type := Cell { v : option cell_value }.

Record sheet : Type := Sheet {
  ref : option jsstring;
  cells : gmap (list N) cell
}.

(** [`${value}`] *)
Definition to_string (value : cell_value) : jsstring :=
  match value with
  | VString s => s
  | VNumber n => number_to_string n
  | VBoolean true => js "true"
  | VBoolean false => js "false"
  end.

(** *** The column helpers *)

(** [for (let i = 0; i < columnLetter.length; i++)
       index = index * 26 + (columnLetter.charCodeAt(i) - 64);]
    with the arithmetic of the integers, which is that of the run time
    as long as [index] stays within [MAX_SAFE_INTEGER]. *)
Equations? getColumnIndex_loop (columnLetter : jsstring) (i : nat)
    (index : number) : number
    by wf (length columnLetter - i)%nat lt :=
  getColumnIndex_loop columnLetter i index
    with decide (i < length columnLetter)%nat => {
    | left _ =>
        getColumnIndex_loop columnLetter (S i)
          (index * 26 + (charCodeAt columnLetter i - 64));
    | right _ => index }.
Proof. lia. Qed.

Definition getColumnIndex (columnLetter : jsstring) : number :=
  getColumnIndex_loop columnLetter 0 0.

(** [while (index > 0) { index--;
       letter = String.fromCharCode(65 + (index % 26)) + letter;
       index = Math.floor(index / 26); }]
    for an [index] up to [MAX_SAFE_INTEGER] (beyond it [index--]
    rounds). *)
Equations? getColumnLetter_loop (index : number) (letter : jsstring)
    : jsstring by wf (Z.to_nat index) lt :=
  getColumnLetter_loop index letter with decide (index > 0) => {
    | left _ =>
        let index1 := index - 1 in
        let letter1 := fromCharCode (65 + Z.rem index1 26) ++ letter in
        getColumnLetter_loop (index1 / 26) letter1;
    | right _ => letter }.
Proof.
  subst index1.
  assert ((index - 1) / 26 <= index - 1)
    by (apply Z.div_le_upper_bound; lia).
  lia.
Qed.

Definition getColumnLetter (index : number) : jsstring :=
  getColumnLetter_loop index [].

(** *** [convertSheetToText] *)

(** [const cell = sheet[cellAddress];
     if (cell && cell.v !== undefined) text += `${cell.v}\t`;] *)
Definition append_cell (sheet : sheet) (cellAddress : jsstring)
    (text : jsstring) : jsstring :=
  match cells sheet !! cellAddress with
  | Some cell =>
      match v cell with
      | Some value => text ++ (to_string value ++ [9%N])
      | None => text
      end
  | None => text
  end.

(** [for (let col = startCol; col <= endCol; col++) { ... }]
    for an [endCol] up to [MAX_SAFE_INTEGER]; beyond it [col++] stops
    advancing in the run time, and the loop of the service does not
    end where this one does. *)
Equations? convertSheetToText_cols (sheet : sheet) (row endCol : number)
    (col : number) (text : jsstring) : jsstring
    by wf (Z.to_nat (endCol + 1 - col)) lt :=
  convertSheetToText_cols sheet row endCol col text
    with decide (col <= endCol) => {
    | left _ =>
        let cellAddress := getColumnLetter col ++ number_to_string row in
        convertSheetToText_cols sheet row endCol (col + 1)
          (append_cell sheet cellAddress text);
    | right _ => text }.
Proof. lia. Qed.

(** [for (let row = startRow; row <= endRow; row++) { ...; text += '\n'; }]
    for an [endRow] up to [MAX_SAFE_INTEGER], as for the columns. *)
Equations? convertSheetToText_rows (sheet : sheet)
    (startCol endCol endRow : number) (row : number) (text : jsstring)
    : jsstring by wf (Z.to_nat (endRow + 1 - row)) lt :=
  convertSheetToText_rows sheet startCol endCol endRow row text
    with decide (row <= endRow) => {
    | left _ =>
        convertSheetToText_rows sheet startCol endCol endRow (row + 1)
          (convertSheetToText_cols sheet row endCol startCol text ++ [10%N]);
    | right _ => text }.
Proof. lia. Qed.

Definition convertSheetToText (sheet : sheet) : completion jsstring :=
  let text := [] in
  match ref sheet with
  | Some (c :: range') =>
      let range := c :: range' in
      let pieces := split 58%N range in
      let start := pieces !! 0%nat in
      let end_ := pieces !! 1%nat in
      startLetters ← match_0 start (Plus upper);
      let startCol := getColumnIndex startLetters in
      startDigits ← match_0 start (Plus digit);
      let startRow := parseInt startDigits in
      endLetters ← match_0 end_ (Plus upper);
      let endCol := getColumnIndex endLetters in
      endDigits ← match_0 end_ (Plus digit);
      let endRow := parseInt endDigits in
      Normal (convertSheetToText_rows sheet startCol endCol endRow startRow text)
  | Some [] | None => Normal text
  end.

(** *** [parseGroqResponse]

    The [catch] block also writes the caught error to the console,
    which is left out. *)

(** [/```json\s*([\s\S]*?)\s*```/] and [/```\s*([\s\S]*?)\s*```/];
    [fence_tail] is the part [([\s\S]*?)\s*```] they share. *)
Definition fence_tail : regex :=
  Seq (Group (Star false any)) (Seq (Star true space) (Chars (js "```"))).

Definition json_fence : regex :=
  Seq (Chars (js "```json")) (Seq (Star true space) fence_tail).

Definition plain_fence : regex :=
  Seq (Chars (js "```")) (Seq (Star true space) fence_tail).

(** An element of [jsonMatch]: [null] or a string. *)
Definition jsonMatch (response : jsstring) : list (option jsstring) :=
  match exec json_fence response with
  | Some array => Some <$> array
  | None =>
      match exec plain_fence response with
      | Some array => Some <$> array
      | None => [None; Some response]
      end
  end.

(** [jsonMatch[1] || response]: the second element unless it is
    missing or the empty string. *)
Definition jsonString (response : jsstring) : jsstring :=
  match jsonMatch response !! 1%nat with
  | Some (Some (c :: s)) => c :: s
  | _ => response
  end.

Definition parseGroqResponse (response : jsstring)
    : completion JSON.value :=
  try_catch
    (JSON.parse (jsonString response))
    (fun error => Throw (Error (js "Invalid response format from Groq"))).

(** *** [convertWorkbookToText]

    The workbook the caller passes: [SheetNames] is the list of sheet
    names when present, [Sheets] maps a name to its sheet.  (A name
    that [Sheets] only inherits, as [constructor], reads as a value
    without ['!ref'], which adds the empty text as a missing sheet
    does.) *)
Record workbook : Type := Workbook {
  SheetNames : option (list jsstring);
  Sheets : gmap (list N) sheet
}.

(** [workbookData.SheetNames.forEach((sheetName) => { ... })]; a
    throw inside the callback ends the loop. *)
Fixpoint convertWorkbookToText_forEach (Sheets : gmap (list N) sheet)
    (sheetNames : list jsstring) (text : jsstring) : completion jsstring :=
  match sheetNames with
  | [] => Normal text
  | sheetName :: rest =>
      let text1 := text ++ (10%N :: js "Sheet: " ++ sheetName ++ [10%N]) in
      text2 ← match Sheets !! sheetName with
               | Some sheet =>
                   sheetText ← convertSheetToText sheet;
                   Normal (text1 ++ sheetText)
               | None => Normal text1
               end;
      convertWorkbookToText_forEach Sheets rest text2
  end.

Definition convertWorkbookToText (workbookData : workbook)
    : completion jsstring :=
  let text := [] in
  match SheetNames workbookData with
  | Some sheetNames =>
      let text1 :=
        text ++ js "Workbook contains "
        ++ number_to_string (Z.of_nat (length sheetNames))
        ++ js " sheets:" ++ [10%N] in
      convertWorkbookToText_forEach (Sheets workbookData) sheetNames text1
  | None => Normal text
  end.

(** *** [parseTestScenarioResponse] and [parseQueryResponse] *)

Definition parseTestScenarioResponse (response : jsstring)
    : completion JSON.value :=
  try_catch
    (JSON.parse (jsonString response))
    (fun error =>
       Throw (Error (js "Invalid test scenario response format"))).

(** The object the callback of [queries.map] builds.  [query] and
    [description] may be [undefined]; [timestamp] is the time value of
    the [Date]. *)
Record query_object : Type := QueryObject {
  query_id : JSON.value;
  query_query : option JSON.value;
  query_description : option JSON.value;
  query_category : JSON.value;
  query_timestamp : number
}.

(** The system clock: [now k] is what the [k]-th reading of the clock
    by [Date.now()] or [new Date()] gives; the loop counts its
    readings. *)
Definition parseQueryResponse_callback (now : nat -> number) (readings : nat)
    (query : JSON.value) (index : nat) : completion (query_object * nat) :=
  id ← JSON.get query (js "id");
  let '(id1, readings1) :=
    match id with
    | Some v =>
        if JSON.truthy v then (v, readings)
        else (JSON.JString
                (js "query_" ++ number_to_string (now readings) ++ js "_"
                 ++ number_to_string (Z.of_nat index)), S readings)
    | None =>
        (JSON.JString
           (js "query_" ++ number_to_string (now readings) ++ js "_"
            ++ number_to_string (Z.of_nat index)), S readings)
    end in
  query1 ← JSON.get query (js "query");
  description ← JSON.get query (js "description");
  category ← JSON.get query (js "category");
  Normal (QueryObject id1 query1 description
            (JSON.or_else category (JSON.JString (js "SELECT")))
            (now readings1),
          S readings1).

(** [queries.map((query, index) => ...)] on an array. *)
Fixpoint parseQueryResponse_map (now : nat -> number) (readings : nat)
    (queries : list JSON.value) (index : nat)
    : completion (list query_object) :=
  match queries with
  | [] => Normal []
  | query :: rest =>
      '(object, readings1) ←
        parseQueryResponse_callback now readings query index;
      objects ← parseQueryResponse_map now readings1 rest (S index);
      Normal (object :: objects)
  end.

(** [queries.map] is a function only when [queries] is an array. *)
Definition parseQueryResponse (now : nat -> number) (response : jsstring)
    : completion (list query_object) :=
  try_catch
    (queries ← JSON.parse (jsonString response);
     match queries with
     | JSON.JArray elements => parseQueryResponse_map now 0 elements 0
     | _ => Throw TypeError
     end)
    (fun error => Throw (Error (js "Invalid query response format"))).

(** *** The interfaces of the knowledge base *)

Module SQLQuery.
Inductive category_t : Type := SELECT | INSERT | UPDATE | DELETE | VALIDATION.
Record t : Type := Build {
  id : jsstring;
  query : jsstring;
  description : jsstring;
  category : category_t;
  testScenario : option jsstring
}.
End SQLQuery.

Module ColumnDefinition.
Record t : Type := Build {
  name : jsstring;
  dataType : jsstring;
  isNullable : bool;
  isPrimaryKey : bool;
  description : option jsstring;
  constraints : option (list jsstring)
}.
End ColumnDefinition.

Module Constraint.
Inductive type_t : Type := PRIMARY_KEY | FOREIGN_KEY | UNIQUE | CHECK.
Record t : Type := Build {
  name : jsstring;
  type : type_t;
  columns : list jsstring;
  reference : option jsstring
}.
End Constraint.

Module Relationship.
Inductive type_t : Type := ONE_TO_ONE | ONE_TO_MANY | MANY_TO_MANY.
Record t : Type := Build {
  fromTable : jsstring;
  toTable : jsstring;
  fromColumn : jsstring;
  toColumn : jsstring;
  type : type_t
}.
End Relationship.

Module TableSpecification.
Record t : Type := Build {
  tableName : jsstring;
  columns : list ColumnDefinition.t;
  constraints : list Constraint.t;
  relationships : list Relationship.t
}.
End TableSpecification.

Module DataTransformation.
Record t : Type := Build {
  name : jsstring;
  description : jsstring;
  sqlLogic : jsstring;
  conditions : list jsstring
}.
End DataTransformation.

Module FunctionalRequirement.
Record t : Type := Build {
  id : jsstring;
  description : jsstring;
  businessLogic : jsstring;
  transformations : list DataTransformation.t
}.
End FunctionalRequirement.

Module BusinessRule.
Inductive validationType_t : Type := CHECK | TRIGGER | PROCEDURE.
Record t : Type := Build {
  id : jsstring;
  rule : jsstring;
  sqlCondition : jsstring;
  validationType : validationType_t
}.
End BusinessRule.

Module TestScenario.
Record t : Type := Build {
  id : jsstring;
  name : jsstring;
  description : jsstring;
  testQueries : list SQLQuery.t;
  expectedResults : jsstring
}.
End TestScenario.

Module ParsedKnowledge.
Record t : Type := Build {
  tableSpecifications : list TableSpecification.t;
  functionalRequirements : list FunctionalRequirement.t;
  businessRules : list BusinessRule.t;
  testScenarios : list TestScenario.t
}.
End ParsedKnowledge.

(** *** The text-generation client

    A request of [groq.chat.completions.create] and the part of its
    reply the service reads, [response.choices[0].message.content].
    The temperature is the decimal literal of the source, as mantissa
    and exponent. *)
Module Request.
Record message : Type := Message { role : jsstring; content : jsstring }.
Record t : Type := Build {
  messages : list message;
  model : jsstring;
  temperature : Z * Z;
  max_tokens : number
}.
End Request.

Module Response.
Record message_t : Type := Message { content : option jsstring }.
Record choice_t : Type := Choice { message : message_t }.
Record t : Type := Build { choices : list choice_t }.
End Response.

(** [response.choices[0].message.content]; [choices[0]] is
    [undefined] when there is no choice. *)
Definition first_content (response : Response.t)
    : completion (option jsstring) :=
  match Response.choices response with
  | choice :: _ => Normal (Response.content (Response.message choice))
  | [] => Throw TypeError
  end.

(** A parser of the service applied to a content that may be [null]:
    [response.match] on [null] is a [TypeError] inside the parser's
    [try], so the parser throws its own error. *)
Definition on_content {A : Type} (parser : jsstring -> completion A)
    (error : js_error) (content : option jsstring) : completion A :=
  match content with
  | Some response => parser response
  | None => Throw error
  end.

Section Client.

(** [this.groq.chat.completions.create], awaited: the reply or a
    rejection.  [data] is the type of the rows of [uploadedData];
    [stringify_rows] and [stringify_knowledge] are
    [JSON.stringify(_, null, 2)] on rows and on a knowledge base, both
    of data that can be serialized. *)
Context (create : Request.t -> completion Response.t).
Context {data : Type} (stringify_rows : list data -> jsstring).
Context (stringify_knowledge : ParsedKnowledge.t -> jsstring).

(** *** [buildContext] *)

Definition buildContext (knowledge : ParsedKnowledge.t)
    (uploadedData : option (list data)) : jsstring :=
  let context := js "Knowledge Base:" ++ [10%N] in
  let context := context ++ (10%N :: js "Table Specifications:" ++ [10%N]) in
  let context :=
    foldl (fun context table =>
             let context :=
               context ++ js "- Table: " ++ TableSpecification.tableName table
               ++ [10%N] in
             foldl (fun context col =>
                      context ++ js "  - " ++ ColumnDefinition.name col
                      ++ js ": " ++ ColumnDefinition.dataType col
                      ++ (if ColumnDefinition.isPrimaryKey col
                          then js " (PK)" else [])
                      ++ (if ColumnDefinition.isNullable col
                          then js " (nullable)" else [])
                      ++ [10%N])
                   context (TableSpecification.columns table))
          context (ParsedKnowledge.tableSpecifications knowledge) in
  let context := context ++ (10%N :: js "Business Rules:" ++ [10%N]) in
  let context :=
    foldl (fun context rule =>
             context ++ js "- " ++ BusinessRule.rule rule ++ js ": "
             ++ BusinessRule.sqlCondition rule ++ [10%N])
          context (ParsedKnowledge.businessRules knowledge) in
  let context :=
    context ++ (10%N :: js "Functional Requirements:" ++ [10%N]) in
  let context :=
    foldl (fun context req =>
             context ++ js "- " ++ FunctionalRequirement.description req
             ++ js ": " ++ FunctionalRequirement.businessLogic req ++ [10%N])
          context (ParsedKnowledge.functionalRequirements knowledge) in
  match uploadedData with
  | Some rows =>
      (context ++ (10%N :: js "Uploaded Data Sample:" ++ [10%N]))
      ++ stringify_rows (take 5 rows)
  | None => context
  end.

(** *** [parseExcelWorkbook], [generateQueries], [generateTestScenarios] *)

Definition parseExcelWorkbook_system : jsstring :=
  lines
    [js "You are a SQL expert and data analyst. Parse this Excel workbook and extract:";
     js "            1. Table specifications (column names, data types, constraints)";
     js "            2. Functional requirements and business rules";
     js "            3. Data transformation rules";
     js "            4. Test scenarios and validation rules";
     [];
     js "            Return the analysis in JSON format with the following structure:";
     js "            {";
     js "              " ++ [34%N] ++ js "tableSpecifications" ++ [34%N] ++ js ": [...],";
     js "              " ++ [34%N] ++ js "functionalRequirements" ++ [34%N] ++ js ": [...],";
     js "              " ++ [34%N] ++ js "businessRules" ++ [34%N] ++ js ": [...],";
     js "              " ++ [34%N] ++ js "testScenarios" ++ [34%N] ++ js ": [...]";
     js "            }"].

Definition parseExcelWorkbook (workbookData : workbook)
    : completion JSON.value :=
  try_catch
    (workbookText ← convertWorkbookToText workbookData;
     response ←
       create
         (Request.Build
            [Request.Message (js "system") parseExcelWorkbook_system;
             Request.Message (js "user")
               (js "Analyze this Excel workbook:" ++ [10%N; 10%N]
                ++ workbookText)]
            (js "mixtral-8x7b-32768") (1, -1) 4000);
     result ← first_content response;
     on_content parseGroqResponse
       (Error (js "Invalid response format from Groq")) result)
    (fun error => Throw (Error (js "Failed to parse Excel workbook"))).

Definition generateQueries_system : jsstring :=
  lines
    [js "You are a SQL expert. Based on the provided knowledge base, generate SQL queries for the user's request.";
     js "            Consider the table specifications, business rules, and functional requirements.";
     [];
     js "            Return queries in JSON format:";
     js "            [";
     js "              {";
     js "                " ++ [34%N] ++ js "id" ++ [34%N] ++ js ": "
       ++ [34%N] ++ js "unique_id" ++ [34%N] ++ js ",";
     js "                " ++ [34%N] ++ js "query" ++ [34%N] ++ js ": "
       ++ [34%N] ++ js "SQL_QUERY" ++ [34%N] ++ js ",";
     js "                " ++ [34%N] ++ js "description" ++ [34%N] ++ js ": "
       ++ [34%N] ++ js "What this query does" ++ [34%N] ++ js ",";
     js "                " ++ [34%N] ++ js "category" ++ [34%N] ++ js ": "
       ++ [34%N] ++ js "SELECT|INSERT|UPDATE|DELETE|VALIDATION" ++ [34%N];
     js "              }";
     js "            ]"].

Definition generateQueries (now : nat -> number)
    (knowledge : ParsedKnowledge.t) (userRequest : jsstring)
    (uploadedData : option (list data)) : completion (list query_object) :=
  try_catch
    (let context := buildContext knowledge uploadedData in
     response ←
       create
         (Request.Build
            [Request.Message (js "system") generateQueries_system;
             Request.Message (js "user")
               (js "Knowledge Base:" ++ [10%N] ++ context ++ [10%N; 10%N]
                ++ js "User Request: " ++ userRequest)]
            (js "mixtral-8x7b-32768") (2, -1) 2000);
     result ← first_content response;
     on_content (parseQueryResponse now)
       (Error (js "Invalid query response format")) result)
    (fun error => Throw (Error (js "Failed to generate queries"))).

Definition generateTestScenarios_system : jsstring :=
  lines
    [js "You are a QA expert. Based on the provided knowledge base, generate comprehensive test scenarios.";
     js "            Include data validation, business rule testing, and edge cases.";
     [];
     js "            Return test scenarios in JSON format:";
     js "            [";
     js "              {";
     js "                " ++ [34%N] ++ js "id" ++ [34%N] ++ js ": "
       ++ [34%N] ++ js "unique_id" ++ [34%N] ++ js ",";
     js "                " ++ [34%N] ++ js "name" ++ [34%N] ++ js ": "
       ++ [34%N] ++ js "Test Scenario Name" ++ [34%N] ++ js ",";
     js "                " ++ [34%N] ++ js "description" ++ [34%N] ++ js ": "
       ++ [34%N] ++ js "What this test validates" ++ [34%N] ++ js ",";
     js "                " ++ [34%N] ++ js "testQueries" ++ [34%N] ++ js ": [...],";
     js "                " ++ [34%N] ++ js "expectedResults" ++ [34%N] ++ js ": "
       ++ [34%N] ++ js "Expected outcome" ++ [34%N];
     js "              }";
     js "            ]"].

Definition generateTestScenarios (knowledge : ParsedKnowledge.t)
    : completion JSON.value :=
  try_catch
    (response ←
       create
         (Request.Build
            [Request.Message (js "system") generateTestScenarios_system;
             Request.Message (js "user")
               (js "Generate test scenarios for this knowledge base:"
                ++ [10%N] ++ stringify_knowledge knowledge)]
            (js "mixtral-8x7b-32768") (3, -1) 3000);
     result ← first_content response;
     on_content parseTestScenarioResponse
       (Error (js "Invalid test scenario response format")) result)
    (fun error => Throw (Error (js "Failed to generate test scenarios"))).

End Client.

End GroqService.
Import GroqService.

(** ** Vocabulary of the properties *)

(** One step of [getColumnIndex]'s loop. *)
Definition step (index : number) (c : N) : number :=
  index * 26 + (Z.of_N c - 64).

(** A call of a method whose body has no [throw] and calls nothing
    that throws completes normally with the value the body computes. *)
Definition call {A B : Type} (method : A -> B) (argument : A)
  : completion B := Normal (method argument).

(** The call raises a fault, of whatever kind. *)
Definition fails {A : Type} (c : completion A) : Prop :=
  exists e, c = Throw e.

(** The value [parseGroqResponse] throws from its [catch] block. *)
Definition Invalid_response_format : js_error :=
  Error (js "Invalid response format from Groq").

(** The last column ([XFD]) and the last row of a worksheet of the
    workbook format.  The properties of the loops of
    [convertSheetToText] are stated for ranges within them, far below
    [MAX_SAFE_INTEGER]. *)
Definition MAX_COLUMN : number := 16384.
Definition MAX_ROW : number := 1048576.

(** The text of a range in A1 notation ([B2:D9]), the form in which
    the workbook reader writes a sheet's range into ['!ref']. *)
Definition encode_cell (col row : number) : jsstring :=
  getColumnLetter col ++ number_to_string row.

Definition encode_range (startCol startRow endCol endRow : number)
  : jsstring :=
  encode_cell startCol startRow ++ [58%N] ++ encode_cell endCol endRow.

(** The inputs of the examples: the object text [{"a":1}] and its
    value, the same text inside prose and inside a [```json] fence, two
    fences with an empty interior inside a JSON string, and the cells
    of a sheet that holds only A1 = "x". *)
Definition dquote : jsstring := [34%N].
Definition newline : jsstring := [10%N].
Definition tab : jsstring := [9%N].

Definition object_a_1 : jsstring :=
  js "{" ++ dquote ++ js "a" ++ dquote ++ js ":1}".

Definition value_a_1 : JSON.value :=
  JSON.JObject [(js "a", JSON.JNumber 1 0)].

Definition prose_text : jsstring :=
  js "here is the data: " ++ object_a_1 ++ js " thanks".

Definition fenced_text : jsstring :=
  js "```json" ++ newline ++ object_a_1 ++ newline ++ js "```".

Definition quoted_json_fence : jsstring :=
  dquote ++ js "```json```" ++ dquote.

Definition quoted_plain_fence : jsstring :=
  dquote ++ js "``` ```" ++ dquote.

Definition cells_A1_x : gmap (list N) cell :=
  {[ js "A1" := Cell (Some (VString (js "x"))) ]}.

Definition cells_A1_x_B2_7 : gmap (list N) cell :=
  {[ js "A1" := Cell (Some (VString (js "x")));
     js "B2" := Cell (Some (VNumber 7)) ]}.

(** A cell value whose text the model has as the run time prints it:
    any text, any boolean, and a number within [MAX_SAFE_INTEGER]. *)
Definition safe_value (value : cell_value) : Prop :=
  match value with
  | VNumber n => - MAX_SAFE_INTEGER <= n <= MAX_SAFE_INTEGER
  | VString _ | VBoolean _ => True
  end.

(** The serialized text in the words of the specification: for each
    row of the range in ascending order, each present cell's string
    value followed by a tab and nothing for an absent cell, then one
    newline for the row.  The string value of a cell is its text, the
    word [true] or [false], or the decimal numeral of its number, as
    the standard library writes it. *)
Module Spec.

Definition string_value (value : cell_value) : jsstring :=
  match value with
  | VString s => s
  | VNumber n => js (DecimalString.NilZero.string_of_int (Z.to_int n))
  | VBoolean b => if b then js "true" else js "false"
  end.

Definition cell_text (sheet : sheet) (row col : number) : jsstring :=
  match cells sheet !! encode_cell col row with
  | Some (Cell (Some value)) => string_value value ++ [9%N]
  | Some (Cell None) | None => []
  end.

Definition row_text (sheet : sheet) (startCol endCol : number)
    (row : number) : jsstring :=
  concat (cell_text sheet row <$> seqZ startCol (endCol + 1 - startCol))
  ++ [10%N].

Definition serialize (sheet : sheet)
    (startCol startRow endCol endRow : number) : jsstring :=
  concat (row_text sheet startCol endCol
            <$> seqZ startRow (endRow + 1 - startRow)).

End Spec.

(** The decimal number, in the standard library's form, that a string
    of digit characters writes. *)
Definition digit_of (c : N) (u : Decimal.uint) : Decimal.uint :=
  if decide (c = 48%N) then Decimal.D0 u
  else if decide (c = 49%N) then Decimal.D1 u
  else if decide (c = 50%N) then Decimal.D2 u
  else if decide (c = 51%N) then Decimal.D3 u
  else if decide (c = 52%N) then Decimal.D4 u
  else if decide (c = 53%N) then Decimal.D5 u
  else if decide (c = 54%N) then Decimal.D6 u
  else if decide (c = 55%N) then Decimal.D7 u
  else if decide (c = 56%N) then Decimal.D8 u
  else Decimal.D9 u.

Definition uint_of (digits : jsstring) : Decimal.uint :=
  foldr digit_of Decimal.Nil digits.

(** A range text the service can read: the first two pieces between
    colons each hold an uppercase letter and a digit. *)
Definition readable_ref (range : jsstring) : bool :=
  match split 58%N range with
  | start :: end_ :: _ =>
      existsb upper start && existsb digit start
      && existsb upper end_ && existsb digit end_
  | _ => false
  end.

(** The number of newline characters of a text. *)
Definition count_newlines (text : jsstring) : nat :=
  length (filter (fun c => c = 10%N) text).

(** The part of the workbook text for one sheet name: the heading
    and, when the workbook has a sheet of that name, its text. *)
Definition sheet_section (Sheets : gmap (list N) sheet) (sheetName : jsstring)
  : jsstring :=
  (10%N :: js "Sheet: " ++ sheetName ++ [10%N])
  ++ match Sheets !! sheetName with
     | Some sheet =>
         match convertSheetToText sheet with
         | Normal sheetText => sheetText
         | Throw _ => []
         end
     | None => []
     end.

(** The value [parseQueryResponse] throws from its [catch] block. *)
Definition Invalid_query_response_format : js_error :=
  Error (js "Invalid query response format").

(** The identifier the callback of [parseQueryResponse] makes up. *)
Definition generated_id (time : number) (index : nat) : JSON.value :=
  JSON.JString
    (js "query_" ++ number_to_string time ++ js "_"
     ++ number_to_string (Z.of_nat index)).

(** An element of the reply has an [id] that is kept. *)
Definition has_truthy_id (element : JSON.value) : bool :=
  match JSON.get element (js "id") with
  | Normal (Some v) => JSON.truthy v
  | _ => false
  end.

(** [element.key] where [element] is not [null]. *)
Definition property (element : JSON.value) (key : jsstring)
  : option JSON.value :=
  match JSON.get element key with
  | Normal v => v
  | Throw _ => None
  end.

(** The object [parseQueryResponse] returns for the element at
    [index]: the element's [id] when it is truthy and a made-up one
    otherwise, its [query] and [description] as they are, and its
    [category] when it is truthy and ["SELECT"] otherwise. *)
Definition built_from (element : JSON.value) (index : nat)
    (object : query_object) : Prop :=
  (has_truthy_id element = true ->
   Some (query_id object) = property element (js "id")) /\
  (has_truthy_id element = false ->
   exists time, query_id object = generated_id time index) /\
  query_query object = property element (js "query") /\
  query_description object = property element (js "description") /\
  query_category object
  = JSON.or_else (property element (js "category"))
      (JSON.JString (js "SELECT")).

(** Inputs of the examples for [parseQueryResponse]: a clock, and the
    reply [[{"id":"q1","query":"SELECT 1"},{"query":"SELECT 2"},{"id":""}]]
    with its three elements. *)
Definition example_clock (k : nat) : number := 1000 + Z.of_nat k.

Definition quoted (s : string) : jsstring := dquote ++ js s ++ dquote.

Definition queries_reply : jsstring :=
  js "[{" ++ quoted "id" ++ js ":" ++ quoted "q1" ++ js ","
  ++ quoted "query" ++ js ":" ++ quoted "SELECT 1" ++ js "},{"
  ++ quoted "query" ++ js ":" ++ quoted "SELECT 2" ++ js "},{"
  ++ quoted "id" ++ js ":" ++ quoted "" ++ js "}]".

Definition queries_reply_elements : list JSON.value :=
  [JSON.JObject [(js "id", JSON.JString (js "q1"));
                 (js "query", JSON.JString (js "SELECT 1"))];
   JSON.JObject [(js "query", JSON.JString (js "SELECT 2"))];
   JSON.JObject [(js "id", JSON.JString [])]].

Definition queries_reply_objects : list query_object :=
  [QueryObject (JSON.JString (js "q1")) (Some (JSON.JString (js "SELECT 1")))
     None (JSON.JString (js "SELECT")) 1000;
   QueryObject (JSON.JString (js "query_1001_1"))
     (Some (JSON.JString (js "SELECT 2")))
     None (JSON.JString (js "SELECT")) 1002;
   QueryObject (JSON.JString (js "query_1003_2")) None
     None (JSON.JString (js "SELECT")) 1004].

(** The values the three public methods throw. *)
Definition Failed_to_parse_Excel_workbook : js_error :=
  Error (js "Failed to parse Excel workbook").
Definition Failed_to_generate_queries : js_error :=
  Error (js "Failed to generate queries").
Definition Failed_to_generate_test_scenarios : js_error :=
  Error (js "Failed to generate test scenarios").

(** The requests the three public methods send, by the text they put
    into the user message. *)
Definition workbook_request (workbookText : jsstring) : Request.t :=
  Request.Build
    [Request.Message (js "system") parseExcelWorkbook_system;
     Request.Message (js "user")
       (js "Analyze this Excel workbook:" ++ newline ++ newline
        ++ workbookText)]
    (js "mixtral-8x7b-32768") (1, -1) 4000.

Definition queries_request (context userRequest : jsstring) : Request.t :=
  Request.Build
    [Request.Message (js "system") generateQueries_system;
     Request.Message (js "user")
       (js "Knowledge Base:" ++ newline ++ context ++ newline ++ newline
        ++ js "User Request: " ++ userRequest)]
    (js "mixtral-8x7b-32768") (2, -1) 2000.

Definition scenarios_request (knowledgeText : jsstring) : Request.t :=
  Request.Build
    [Request.Message (js "system") generateTestScenarios_system;
     Request.Message (js "user")
       (js "Generate test scenarios for this knowledge base:" ++ newline
        ++ knowledgeText)]
    (js "mixtral-8x7b-32768") (3, -1) 3000.

(** Inputs of the examples for the public methods: a client that
    answers every request with one choice of a given content, a
    knowledge base without entries, and a workbook whose only sheet has
    a single-cell range. *)
Definition reply_with (content : jsstring) (request : Request.t)
  : completion Response.t :=
  Normal (Response.Build [Response.Choice (Response.Message (Some content))]).

Definition empty_knowledge : ParsedKnowledge.t :=
  ParsedKnowledge.Build [] [] [] [].

Definition single_cell_workbook : workbook :=
  Workbook (Some [js "Sheet1"])
           {[ js "Sheet1" := Sheet (Some (js "A1")) cells_A1_x ]}.

(** * Properties of the column helpers *)

Section ColumnHelpers.

Lemma getColumnIndex_loop_lt columnLetter i index :
  (i < length columnLetter)%nat ->
  getColumnIndex_loop columnLetter i index =
  getColumnIndex_loop columnLetter (S i)
    (index * 26 + (charCodeAt columnLetter i - 64)).
Proof.
  intros Hi. rewrite getColumnIndex_loop_equation_1.
  destruct (decide (i < length columnLetter)%nat); [reflexivity | lia].
Qed.

Lemma getColumnIndex_loop_ge columnLetter i index :
  (length columnLetter <= i)%nat ->
  getColumnIndex_loop columnLetter i index = index.
Proof.
  intros Hi. rewrite getColumnIndex_loop_equation_1.
  destruct (decide (i < length columnLetter)%nat); [lia | reflexivity].
Qed.

(** From position [i] on, the loop folds [step] over the rest. *)
Lemma getColumnIndex_loop_drop columnLetter :
  forall n i index,
    n = (length columnLetter - i)%nat ->
    getColumnIndex_loop columnLetter i index =
    foldl step index (drop i columnLetter).
Proof.
  induction n as [|n IH]; intros i index Hn.
  - rewrite getColumnIndex_loop_ge by lia.
    rewrite drop_ge by lia. reflexivity.
  - assert (Hi : (i < length columnLetter)%nat) by lia.
    rewrite getColumnIndex_loop_lt by exact Hi.
    destruct (lookup_lt_is_Some_2 columnLetter i Hi) as [c Hc].
    rewrite (drop_S _ _ _ Hc). simpl.
    rewrite IH by lia. unfold charCodeAt, step. rewrite Hc. reflexivity.
Qed.

Lemma getColumnIndex_foldl columnLetter :
  getColumnIndex columnLetter = foldl step 0 columnLetter.
Proof.
  unfold getColumnIndex.
  rewrite (getColumnIndex_loop_drop columnLetter _ 0%nat 0 eq_refl).
  reflexivity.
Qed.

Lemma getColumnLetter_loop_pos index letter :
  index > 0 ->
  getColumnLetter_loop index letter =
  getColumnLetter_loop ((index - 1) / 26)
    (fromCharCode (65 + Z.rem (index - 1) 26) ++ letter).
Proof.
  intros Hi. rewrite getColumnLetter_loop_equation_1.
  destruct (decide (index > 0)); [reflexivity | lia].
Qed.

Lemma getColumnLetter_loop_nonpos index letter :
  index <= 0 -> getColumnLetter_loop index letter = letter.
Proof.
  intros Hi. rewrite getColumnLetter_loop_equation_1.
  destruct (decide (index > 0)); [lia | reflexivity].
Qed.

(** The letters already produced stay at the end of the result. *)
Lemma getColumnLetter_loop_app :
  forall index, 0 <= index -> forall letter,
    getColumnLetter_loop index letter =
    getColumnLetter_loop index [] ++ letter.
Proof.
  intros index Hindex.
  apply (Zlt_0_ind (fun index => forall letter,
    getColumnLetter_loop index letter =
    getColumnLetter_loop index [] ++ letter)); [| exact Hindex].
  clear index Hindex. intros index IH Hindex letter.
  destruct (decide (index > 0)) as [Hpos | Hzero].
  - assert (0 <= (index - 1) / 26 < index).
    { split; [apply Z.div_pos; lia |].
      apply Z.le_lt_trans with (index - 1); [| lia].
      apply Z.div_le_upper_bound; lia. }
    rewrite (getColumnLetter_loop_pos index letter Hpos).
    rewrite (getColumnLetter_loop_pos index [] Hpos).
    rewrite (IH _ H (_ ++ letter)), (IH _ H (_ ++ [])).
    rewrite app_nil_r, <- app_assoc. reflexivity.
  - rewrite !getColumnLetter_loop_nonpos by lia. reflexivity.
Qed.

Lemma getColumnLetter_step index :
  0 < index ->
  0 <= (index - 1) / 26 < index /\
  0 <= Z.rem (index - 1) 26 < 26 /\
  index = (index - 1) / 26 * 26 + Z.rem (index - 1) 26 + 1.
Proof.
  intros Hpos.
  rewrite Z.rem_mod_nonneg by lia.
  pose proof (Z.mod_pos_bound (index - 1) 26 ltac:(lia)).
  pose proof (Z.div_mod (index - 1) 26 ltac:(lia)).
  assert (0 <= (index - 1) / 26) by (apply Z.div_pos; lia).
  lia.
Qed.

(** Decoding what [getColumnLetter]'s loop produced gives the index
    back. *)
Lemma foldl_getColumnLetter_loop :
  forall index, 0 <= index ->
    foldl step 0 (getColumnLetter_loop index []) = index.
Proof.
  apply (Zlt_0_ind (fun index =>
    foldl step 0 (getColumnLetter_loop index []) = index)).
  intros index IH Hindex.
  destruct (decide (index > 0)) as [Hpos | Hzero].
  - destruct (getColumnLetter_step index) as (Hq & Hr & Heq); [lia |].
    rewrite getColumnLetter_loop_pos by exact Hpos.
    rewrite getColumnLetter_loop_app by lia.
    rewrite foldl_app, IH by exact Hq.
    unfold fromCharCode. simpl. unfold step at 1.
    rewrite Z2N.id by lia. lia.
  - rewrite getColumnLetter_loop_nonpos by lia.
    simpl. lia.
Qed.

Lemma getColumnLetter_loop_upper :
  forall index, 0 <= index ->
    Forall (fun c => upper c = true) (getColumnLetter_loop index []).
Proof.
  apply (Zlt_0_ind (fun index =>
    Forall (fun c => upper c = true) (getColumnLetter_loop index []))).
  intros index IH Hindex.
  destruct (decide (index > 0)) as [Hpos | Hzero].
  - destruct (getColumnLetter_step index) as (Hq & Hr & Heq); [lia |].
    rewrite getColumnLetter_loop_pos by exact Hpos.
    rewrite getColumnLetter_loop_app by lia.
    apply Forall_app. split; [apply IH; exact Hq |].
    unfold fromCharCode. simpl. repeat constructor.
    unfold upper. apply andb_true_iff. split; apply N.leb_le; lia.
  - rewrite getColumnLetter_loop_nonpos by lia. constructor.
Qed.

Lemma getColumnLetter_nonempty index :
  0 < index -> getColumnLetter index <> [].
Proof.
  intros Hpos. unfold getColumnLetter.
  destruct (getColumnLetter_step index) as (Hq & _); [lia |].
  rewrite getColumnLetter_loop_pos by lia.
  rewrite getColumnLetter_loop_app by lia.
  intros Hnil. apply app_eq_nil in Hnil. destruct Hnil as [_ Hnil].
  discriminate Hnil.
Qed.

Lemma getColumnIndex_getColumnLetter index :
  0 <= index -> getColumnIndex (getColumnLetter index) = index.
Proof.
  intros Hindex. rewrite getColumnIndex_foldl.
  apply foldl_getColumnLetter_loop. exact Hindex.
Qed.

(** How far the loop of [getColumnIndex] can get: on any string of
    code units, and on a string of uppercase letters. *)
Lemma foldl_step_bound letters :
  Forall (fun c => (c < 65536)%N) letters ->
  Z.abs (foldl step 0 letters)
  <= 2619 * (26 ^ Z.of_nat (length letters) - 1).
Proof.
  induction letters as [|c letters IH] using rev_ind; intros Hunits.
  - simpl. lia.
  - apply Forall_app in Hunits. destruct Hunits as [Hletters Hc].
    apply Forall_inv in Hc. specialize (IH Hletters).
    rewrite foldl_app, length_app, Nat2Z.inj_add, Z.pow_add_r by lia.
    simpl. unfold step at 1.
    change (26 ^ 1) with 26.
    set (index := foldl step 0 letters) in *.
    set (P := 26 ^ Z.of_nat (length letters)) in *.
    lia.
Qed.

Lemma foldl_step_upper_bound letters :
  Forall (fun c => upper c = true) letters ->
  0 <= foldl step 0 letters /\
  25 * foldl step 0 letters
  <= 26 * (26 ^ Z.of_nat (length letters) - 1).
Proof.
  induction letters as [|c letters IH] using rev_ind; intros Hupper.
  - simpl. lia.
  - apply Forall_app in Hupper. destruct Hupper as [Hletters Hc].
    apply Forall_inv in Hc. unfold upper in Hc.
    apply andb_true_iff in Hc. destruct Hc as [Hlo Hhi].
    apply N.leb_le in Hlo, Hhi. specialize (IH Hletters).
    rewrite foldl_app, length_app, Nat2Z.inj_add, Z.pow_add_r by lia.
    simpl. unfold step at 1 3.
    change (26 ^ 1) with 26.
    set (index := foldl step 0 letters) in *.
    set (P := 26 ^ Z.of_nat (length letters)) in *.
    lia.
Qed.

Lemma getColumnIndex_safe columnLetter :
  (Forall (fun c => (c < 65536)%N) columnLetter /\
   (length columnLetter <= 8)%nat) \/
  (Forall (fun c => upper c = true) columnLetter /\
   (length columnLetter <= 11)%nat) ->
  - MAX_SAFE_INTEGER <= getColumnIndex columnLetter <= MAX_SAFE_INTEGER.
Proof.
  rewrite getColumnIndex_foldl. unfold MAX_SAFE_INTEGER.
  intros [[Hunits Hlength] | [Hupper Hlength]].
  - pose proof (foldl_step_bound columnLetter Hunits) as Hbound.
    assert (Hpow : 26 ^ Z.of_nat (length columnLetter) <= 26 ^ 8)
      by (apply Z.pow_le_mono_r; lia).
    change (26 ^ 8) with 208827064576 in Hpow.
    change (2 ^ 53) with 9007199254740992. lia.
  - pose proof (foldl_step_upper_bound columnLetter Hupper) as Hbound.
    assert (Hpow : 26 ^ Z.of_nat (length columnLetter) <= 26 ^ 11)
      by (apply Z.pow_le_mono_r; lia).
    change (26 ^ 11) with 3670344486987776 in Hpow.
    change (2 ^ 53) with 9007199254740992. lia.
Qed.

End ColumnHelpers.

(** C4, as the code has it: [getColumnIndex] has no failure path: on
    every string, with or without characters outside [A]-[Z], it
    returns a number.  On a string of at most 8 code units, and on a
    string of at most 11 uppercase letters, where the numbers of the
    loop are safe integers, the number is the left fold of
    [index * 26 + (charCode - 64)] from 0, which for a string of
    uppercase letters is
    [index * 26 + (charCode(letter) - charCode('A') + 1)]; the empty
    string gives 0. *)
Theorem getColumnIndex_is_left_fold (columnLetter : jsstring) :
  ~ fails (call getColumnIndex columnLetter) /\
  ((Forall (fun c => (c < 65536)%N) columnLetter /\
    (length columnLetter <= 8)%nat) \/
   (Forall (fun c => upper c = true) columnLetter /\
    (length columnLetter <= 11)%nat) ->
   call getColumnIndex columnLetter =
   Normal (foldl (fun index c => index * 26 + (Z.of_N c - 65 + 1)) 0
             columnLetter) /\
   - MAX_SAFE_INTEGER <= getColumnIndex columnLetter <= MAX_SAFE_INTEGER).
Proof.
  split; [intros [e He]; discriminate He |].
  intros Hshort. split; [| apply getColumnIndex_safe; exact Hshort].
  unfold call. rewrite getColumnIndex_foldl. f_equal.
  generalize 0. clear Hshort.
  induction columnLetter as [|c l IH]; intros a; simpl.
  - reflexivity.
  - rewrite IH. unfold step. f_equal. lia.
Qed.

Lemma getColumnIndex_is_left_fold_witness :
  call getColumnIndex (js "XFD") = Normal 16384 /\
  - MAX_SAFE_INTEGER <= getColumnIndex (js "XFD") <= MAX_SAFE_INTEGER.
Proof.
  apply (proj2 (getColumnIndex_is_left_fold (js "XFD"))).
  right. split; [repeat constructor | simpl; lia].
Defined.

(** C4 fails as stated: on the empty string, and on a string with a
    lowercase letter and a digit, [getColumnIndex] returns a number
    where the claim has an [InvalidFormat] failure. *)
Lemma getColumnIndex_accepts_any_string :
  call getColumnIndex [] = Normal 0 /\
  call getColumnIndex (js "a1") = Normal 843 /\
  ~ fails (call getColumnIndex []) /\
  ~ fails (call getColumnIndex (js "a1")).
Proof.
  repeat split; try (vm_compute; reflexivity);
    intros [e He]; discriminate He.
Qed.

(** C5, as the code has it: [getColumnLetter] has no failure path.  For
    an index of 0 or less the loop body never runs and the result is
    the empty string; for every index of 1 or more the result is a
    non-empty string of uppercase letters. *)
Theorem getColumnLetter_never_fails (index : number) :
  (index <= 0 -> call getColumnLetter index = Normal []) /\
  (1 <= index ->
   exists letters, call getColumnLetter index = Normal letters /\
     letters <> [] /\ Forall (fun c => upper c = true) letters).
Proof.
  unfold call. split.
  - intros Hneg. unfold getColumnLetter.
    rewrite getColumnLetter_loop_nonpos by exact Hneg. reflexivity.
  - intros Hpos. exists (getColumnLetter index).
    split; [reflexivity |]. split.
    + apply getColumnLetter_nonempty. lia.
    + apply getColumnLetter_loop_upper. lia.
Qed.

Lemma getColumnLetter_never_fails_witness :
  call getColumnLetter (-3) = Normal [] /\
  exists letters, call getColumnLetter 28 = Normal letters /\
    letters <> [] /\ Forall (fun c => upper c = true) letters.
Proof.
  split.
  - apply (proj1 (getColumnLetter_never_fails (-3))). lia.
  - apply (proj2 (getColumnLetter_never_fails 28)). lia.
Defined.

(** C5 fails as stated: for the indices 0 and -1 [getColumnLetter]
    returns the empty string where the claim has an [InvalidArgument]
    failure. *)
Lemma getColumnLetter_zero_returns_empty :
  call getColumnLetter 0 = Normal [] /\
  call getColumnLetter (-1) = Normal [] /\
  ~ fails (call getColumnLetter 0) /\
  ~ fails (call getColumnLetter (-1)).
Proof.
  repeat split; try (vm_compute; reflexivity);
    intros [e He]; discriminate He.
Qed.

(** C6: decoding the letters of a column index gives the index back,
    for every index from 1 to 1000000 (the range 1 to 18278, A to ZZZ,
    included). *)
Theorem getColumnIndex_getColumnLetter_round_trip (n : number) :
  1 <= n <= 1000000 -> getColumnIndex (getColumnLetter n) = n.
Proof.
  intros Hn. apply getColumnIndex_getColumnLetter. lia.
Qed.

Lemma getColumnIndex_getColumnLetter_round_trip_witness :
  1 <= 18278 <= 1000000 /\
  getColumnLetter 18278 = js "ZZZ" /\
  getColumnIndex (getColumnLetter 18278) = 18278.
Proof.
  split; [lia |]. split; [vm_compute; reflexivity |].
  apply (getColumnIndex_getColumnLetter_round_trip 18278). lia.
Defined.

(** * Properties of the run-time functions *)

Section Strings.

Lemma decimal_digits_lt n digits :
  n < 10 -> decimal_digits n digits = Z.to_N (48 + n) :: digits.
Proof.
  intros Hn. rewrite decimal_digits_equation_1.
  destruct (decide (n < 10)); [reflexivity | lia].
Qed.

Lemma decimal_digits_ge n digits :
  10 <= n ->
  decimal_digits n digits =
  decimal_digits (n / 10) (Z.to_N (48 + n mod 10) :: digits).
Proof.
  intros Hn. rewrite decimal_digits_equation_1.
  destruct (decide (n < 10)); [lia | reflexivity].
Qed.

(** What is known of the decimal digits of a non-negative integer:
    they are digits, there is at least one, they come before the
    digits already produced, and [parseInt] reads the integer back. *)
Lemma decimal_digits_spec :
  forall n, 0 <= n -> forall digits,
    exists ds, decimal_digits n digits = ds ++ digits /\
      ds <> [] /\ Forall (fun c => digit c = true) ds /\ parseInt ds = n.
Proof.
  apply (Zlt_0_ind (fun n => forall digits,
    exists ds, decimal_digits n digits = ds ++ digits /\
      ds <> [] /\ Forall (fun c => digit c = true) ds /\ parseInt ds = n)).
  intros n IH Hn digits.
  destruct (decide (n < 10)) as [Hlt | Hge].
  - exists [Z.to_N (48 + n)]. rewrite decimal_digits_lt by exact Hlt.
    split; [reflexivity |]. split; [discriminate |]. split.
    + repeat constructor. unfold digit.
      apply andb_true_iff. split; apply N.leb_le; lia.
    + unfold parseInt. simpl. rewrite Z2N.id by lia. lia.
  - pose proof (Z.mod_pos_bound n 10 ltac:(lia)) as Hr.
    pose proof (Z.div_mod n 10 ltac:(lia)) as Hdm.
    assert (Hq : 0 <= n / 10 < n).
    { split; [apply Z.div_pos; lia | apply Z.div_lt; lia]. }
    rewrite decimal_digits_ge by lia.
    destruct (IH _ Hq (Z.to_N (48 + n mod 10) :: digits))
      as (ds & Heq & Hne & Hds & Hval).
    exists (ds ++ [Z.to_N (48 + n mod 10)]).
    rewrite Heq, <- app_assoc. split; [reflexivity |]. split.
    { intros Hnil. apply app_eq_nil in Hnil. destruct Hnil; discriminate. }
    split.
    + apply Forall_app. split; [exact Hds |].
      repeat constructor. unfold digit.
      apply andb_true_iff. split; apply N.leb_le; lia.
    + unfold parseInt in *. rewrite foldl_app, Hval. simpl.
      rewrite Z2N.id by lia. lia.
Qed.

Lemma number_to_string_spec n :
  0 <= n ->
  number_to_string n <> [] /\
  Forall (fun c => digit c = true) (number_to_string n) /\
  parseInt (number_to_string n) = n.
Proof.
  intros Hn. unfold number_to_string.
  destruct (decide (n < 0)); [lia |].
  destruct (decimal_digits_spec n Hn []) as (ds & Heq & Hne & Hds & Hval).
  rewrite Heq, app_nil_r. auto.
Qed.

Lemma split_no_sep sep s : sep ∉ s -> split sep s = [s].
Proof.
  induction s as [|c s IH]; intros Hs; simpl; [reflexivity |].
  apply not_elem_of_cons in Hs. destruct Hs as [Hc Hs].
  destruct (decide (c = sep)); [congruence |].
  rewrite IH by exact Hs. reflexivity.
Qed.

Lemma split_app_sep sep s1 s2 :
  sep ∉ s1 -> sep ∉ s2 -> split sep (s1 ++ sep :: s2) = [s1; s2].
Proof.
  intros H1 H2. induction s1 as [|c s1 IH]; simpl.
  - destruct (decide (sep = sep)); [| congruence].
    rewrite split_no_sep by exact H2. reflexivity.
  - apply not_elem_of_cons in H1. destruct H1 as [Hc H1].
    destruct (decide (c = sep)); [congruence |].
    rewrite IH by exact H1. reflexivity.
Qed.

End Strings.

Section Numerals.
Import Decimal.

Lemma digit_cases c :
  digit c = true ->
  (c = 48 \/ c = 49 \/ c = 50 \/ c = 51 \/ c = 52 \/ c = 53 \/ c = 54
   \/ c = 55 \/ c = 56 \/ c = 57)%N.
Proof.
  unfold digit. intros H. apply andb_true_iff in H. destruct H as [Hlo Hhi].
  apply N.leb_le in Hlo, Hhi. lia.
Qed.

Ltac each_digit H :=
  apply digit_cases in H;
  repeat (destruct H as [-> | H]); [.. | subst].

(** The standard library writes the number of a string of digits as
    that string. *)
Lemma string_of_uint_of digits :
  Forall (fun c => digit c = true) digits ->
  js (DecimalString.NilEmpty.string_of_uint (uint_of digits)) = digits.
Proof.
  induction 1 as [|c digits Hc _ IH]; [reflexivity |].
  rewrite <- IH at 2. each_digit Hc; reflexivity.
Qed.

(** The value of the number of a string of digits is the value
    [parseInt] reads. *)
Lemma of_lu_uint_of digits :
  Forall (fun c => digit c = true) digits ->
  forall acc,
    Z.of_N (DecimalPos.Unsigned.of_lu (revapp (uint_of digits) acc)) =
    foldl (fun value c => value * 10 + (Z.of_N c - 48))
      (Z.of_N (DecimalPos.Unsigned.of_lu acc)) digits.
Proof.
  induction 1 as [|c digits Hc _ IH]; intros acc; [reflexivity |].
  change (uint_of (c :: digits)) with (digit_of c (uint_of digits)).
  set (u := uint_of digits) in *.
  each_digit Hc;
    match goal with
    | |- context [digit_of ?k u] =>
        let t := eval vm_compute in (digit_of k u) in
        change (digit_of k u) with t
    end;
    cbn [revapp foldl]; rewrite IH; f_equal;
    cbn [DecimalPos.Unsigned.of_lu]; lia.
Qed.

Lemma N_of_uint_of digits :
  Forall (fun c => digit c = true) digits ->
  Z.of_N (N.of_uint (uint_of digits)) = parseInt digits.
Proof.
  intros Hdigits. unfold N.of_uint.
  rewrite DecimalPos.Unsigned.of_uint_alt. unfold rev.
  rewrite (of_lu_uint_of digits Hdigits Nil). reflexivity.
Qed.

Lemma unorm_uint_of c digits :
  digit c = true -> c <> 48%N ->
  unorm (uint_of (c :: digits)) = uint_of (c :: digits) /\
  uint_of (c :: digits) <> Nil.
Proof.
  intros Hc Hnz. each_digit Hc; try congruence;
    split; try reflexivity; discriminate.
Qed.

(** The first digit of a positive integer is not 0. *)
Lemma decimal_digits_head :
  forall n, 0 <= n -> 1 <= n -> forall digits,
    exists c rest, decimal_digits n digits = c :: rest /\ c <> 48%N.
Proof.
  apply (Zlt_0_ind (fun n => 1 <= n -> forall digits,
    exists c rest, decimal_digits n digits = c :: rest /\ c <> 48%N)).
  intros n IH Hn Hpos digits.
  destruct (decide (n < 10)) as [Hlt | Hge].
  - rewrite decimal_digits_lt by exact Hlt.
    eexists _, _. split; [reflexivity | lia].
  - rewrite decimal_digits_ge by lia. apply IH.
    + split; [apply Z.div_pos; lia | apply Z.div_lt; lia].
    + apply Z.div_le_lower_bound; lia.
Qed.

Lemma decimal_digits_to_uint p :
  decimal_digits (Z.pos p) [] =
  js (DecimalString.NilZero.string_of_uint (Pos.to_uint p)).
Proof.
  destruct (decimal_digits_spec (Z.pos p) ltac:(lia) [])
    as (ds & Heq & _ & Hds & Hval).
  destruct (decimal_digits_head (Z.pos p) ltac:(lia) ltac:(lia) [])
    as (c & rest & Hhead & Hnz).
  rewrite app_nil_r, Hhead in Heq. subst ds. rewrite Hhead.
  pose proof (Forall_inv Hds) as Hc. cbn beta in Hc.
  destruct (unorm_uint_of c rest Hc Hnz) as [Hnorm Hnil].
  assert (Huint : Pos.to_uint p = uint_of (c :: rest)).
  { change (Pos.to_uint p) with (N.to_uint (N.pos p)).
    rewrite <- Hnorm, <- DecimalN.Unsigned.to_of. f_equal.
    apply N2Z.inj. rewrite N_of_uint_of by exact Hds. rewrite Hval.
    reflexivity. }
  rewrite Huint.
  replace (DecimalString.NilZero.string_of_uint (uint_of (c :: rest)))
    with (DecimalString.NilEmpty.string_of_uint (uint_of (c :: rest)))
    by (destruct (uint_of (c :: rest)); [congruence | reflexivity ..]).
  symmetry. apply string_of_uint_of. exact Hds.
Qed.

(** The text the service gives a number is the decimal numeral of the
    number. *)
Lemma number_to_string_numeral n :
  number_to_string n = js (DecimalString.NilZero.string_of_int (Z.to_int n)).
Proof.
  unfold number_to_string. destruct n as [|p|p].
  - reflexivity.
  - destruct (decide (Z.pos p < 0)); [lia |]. apply decimal_digits_to_uint.
  - destruct (decide (Z.neg p < 0)); [| lia].
    change (- Z.neg p) with (Z.pos p).
    rewrite decimal_digits_to_uint. reflexivity.
Qed.

Lemma to_string_string_value value :
  to_string value = Spec.string_value value.
Proof.
  destruct value as [s|n|[|]]; try reflexivity.
  apply number_to_string_numeral.
Qed.

End Numerals.

Section Matching.

(** A greedy star whose continuation accepts the rest takes the
    whole run of characters of its class. *)
Lemma star_greedy_run {R} class (k : jsstring -> option R) xs rest :
  Forall (fun c => class c = true) xs ->
  head (class <$> rest) <> Some true ->
  is_Some (k rest) ->
  star_greedy class k (xs ++ rest) = k rest.
Proof.
  intros Hxs Hrest [r Hk]. induction Hxs as [|c xs Hc Hxs IH]; simpl.
  - destruct rest as [|c rest]; simpl in *; [reflexivity |].
    destruct (class c); [congruence | reflexivity].
  - rewrite Hc, IH, Hk. reflexivity.
Qed.

(** [/[class]+/] finds the first run of characters of the class. *)
Lemma exec_Plus class before xs rest :
  Forall (fun c => class c = false) before ->
  Forall (fun c => class c = true) xs -> xs <> [] ->
  head (class <$> rest) <> Some true ->
  exec (Plus class) (before ++ xs ++ rest) = Some [xs].
Proof.
  intros Hbefore Hxs Hne Hrest.
  induction Hbefore as [|c before Hc Hbefore IH]; simpl.
  - destruct xs as [|x xs]; [congruence |].
    apply Forall_cons in Hxs. destruct Hxs as [Hx Hxs].
    simpl. rewrite Hx.
    rewrite star_greedy_run; [| exact Hxs | exact Hrest | eauto].
    replace (S (length (xs ++ rest)) - length rest)%nat
      with (length (x :: xs)) by (rewrite length_app; simpl; lia).
    change (x :: xs ++ rest) with ((x :: xs) ++ rest).
    rewrite take_app_length. reflexivity.
  - rewrite Hc. exact IH.
Qed.

Lemma digit_not_upper c : digit c = true -> upper c = false.
Proof.
  unfold digit, upper. intros H. apply andb_true_iff in H.
  destruct H as [_ H]. apply N.leb_le in H.
  apply andb_false_iff. left. apply N.leb_gt. lia.
Qed.

Lemma upper_not_digit c : upper c = true -> digit c = false.
Proof.
  unfold digit, upper. intros H. apply andb_true_iff in H.
  destruct H as [H _]. apply N.leb_le in H.
  apply andb_false_iff. right. apply N.leb_gt. lia.
Qed.

(** The two matches the service runs on a cell address. *)
Lemma match_0_address letters digits :
  Forall (fun c => upper c = true) letters -> letters <> [] ->
  Forall (fun c => digit c = true) digits -> digits <> [] ->
  match_0 (Some (letters ++ digits)) (Plus upper) = Normal letters /\
  match_0 (Some (letters ++ digits)) (Plus digit) = Normal digits.
Proof.
  intros Hl Hln Hd Hdn. unfold match_0. split.
  - assert (Hexec : exec (Plus upper) (letters ++ digits) = Some [letters]).
    { apply (exec_Plus upper [] letters digits);
        [constructor | exact Hl | exact Hln |].
      destruct Hd as [|d digits Hd _]; [congruence |]. simpl.
      rewrite (digit_not_upper d Hd). congruence. }
    rewrite Hexec. reflexivity.
  - assert (Hexec : exec (Plus digit) (letters ++ digits) = Some [digits]).
    { rewrite <- (app_nil_r digits) at 1.
      apply (exec_Plus digit letters digits []);
        [| exact Hd | exact Hdn | simpl; congruence].
      eapply Forall_impl; [exact Hl |]. apply upper_not_digit. }
    rewrite Hexec. reflexivity.
Qed.

End Matching.

(** * Properties of [convertSheetToText] *)

Section Serializer.

Variable sheet : sheet.

Lemma append_cell_text row col text :
  append_cell sheet (getColumnLetter col ++ number_to_string row) text =
  text ++ Spec.cell_text sheet row col.
Proof.
  unfold append_cell, Spec.cell_text, encode_cell.
  destruct (cells sheet !! _) as [[[value|]]|]; cbn [v];
    rewrite ?to_string_string_value, ?app_nil_r; reflexivity.
Qed.

Lemma convertSheetToText_cols_text row endCol :
  forall n col text,
    n = Z.to_nat (endCol + 1 - col) ->
    convertSheetToText_cols sheet row endCol col text =
    text ++ concat (Spec.cell_text sheet row
                      <$> seqZ col (endCol + 1 - col)).
Proof.
  induction n as [|n IH]; intros col text Hn;
    rewrite convertSheetToText_cols_equation_1;
    destruct (decide (col <= endCol)) as [Hle | Hgt]; try lia; simpl.
  - rewrite seqZ_nil by lia. simpl. rewrite app_nil_r. reflexivity.
  - rewrite IH by lia. rewrite append_cell_text.
    rewrite (seqZ_cons col) by lia. simpl.
    replace (Z.pred (endCol + 1 - col)) with (endCol + 1 - (col + 1)) by lia.
    rewrite <- app_assoc. reflexivity.
Qed.

Lemma convertSheetToText_rows_text startCol endCol endRow :
  forall n row text,
    n = Z.to_nat (endRow + 1 - row) ->
    convertSheetToText_rows sheet startCol endCol endRow row text =
    text ++ Spec.serialize sheet startCol row endCol endRow.
Proof.
  unfold Spec.serialize.
  induction n as [|n IH]; intros row text Hn;
    rewrite convertSheetToText_rows_equation_1;
    destruct (decide (row <= endRow)) as [Hle | Hgt]; try lia; simpl.
  - rewrite seqZ_nil by lia. simpl. rewrite app_nil_r. reflexivity.
  - rewrite IH by lia.
    rewrite (convertSheetToText_cols_text row endCol _ startCol text eq_refl).
    rewrite (seqZ_cons row) by lia. simpl.
    replace (Z.pred (endRow + 1 - row)) with (endRow + 1 - (row + 1)) by lia.
    unfold Spec.row_text at 2. rewrite <- !app_assoc. reflexivity.
Qed.

Lemma encode_cell_parts col row :
  1 <= col -> 0 <= row ->
  Forall (fun c => upper c = true) (getColumnLetter col) /\
  getColumnLetter col <> [] /\
  Forall (fun c => digit c = true) (number_to_string row) /\
  number_to_string row <> [].
Proof.
  intros Hcol Hrow.
  destruct (number_to_string_spec row Hrow) as (Hne & Hds & _).
  split; [apply getColumnLetter_loop_upper; lia |].
  split; [apply getColumnLetter_nonempty; lia |]. auto.
Qed.

Lemma encode_cell_no_colon col row :
  1 <= col -> 0 <= row -> 58%N ∉ encode_cell col row.
Proof.
  intros Hcol Hrow.
  destruct (encode_cell_parts col row Hcol Hrow) as (Hl & _ & Hd & _).
  unfold encode_cell. intros Hin. apply elem_of_app in Hin.
  rewrite Forall_forall in Hl, Hd.
  destruct Hin as [Hin | Hin]; [apply Hl in Hin | apply Hd in Hin];
    vm_compute in Hin; discriminate Hin.
Qed.

(** On the A1 text of a range the service reads the four bounds
    back and runs its loops over them. *)
Lemma convertSheetToText_encode_range startCol startRow endCol endRow :
  1 <= startCol -> 0 <= startRow -> 1 <= endCol -> 0 <= endRow ->
  ref sheet = Some (encode_range startCol startRow endCol endRow) ->
  convertSheetToText sheet =
  Normal (Spec.serialize sheet startCol startRow endCol endRow).
Proof.
  intros Hc1 Hr1 Hc2 Hr2 Href.
  destruct (encode_cell_parts _ _ Hc1 Hr1) as (Hl1 & Hln1 & Hd1 & Hdn1).
  destruct (encode_cell_parts _ _ Hc2 Hr2) as (Hl2 & Hln2 & Hd2 & Hdn2).
  destruct (match_0_address _ _ Hl1 Hln1 Hd1 Hdn1) as [Hm1 Hm2].
  destruct (match_0_address _ _ Hl2 Hln2 Hd2 Hdn2) as [Hm3 Hm4].
  destruct (number_to_string_spec startRow Hr1) as (_ & _ & Hp1).
  destruct (number_to_string_spec endRow Hr2) as (_ & _ & Hp2).
  unfold convertSheetToText. rewrite Href.
  pose proof (split_app_sep 58%N _ _
    (encode_cell_no_colon _ _ Hc1 Hr1) (encode_cell_no_colon _ _ Hc2 Hr2))
    as Hsplit.
  change (encode_cell startCol startRow ++ 58%N :: encode_cell endCol endRow)
    with (encode_range startCol startRow endCol endRow) in Hsplit.
  destruct (encode_range startCol startRow endCol endRow) as [|c range'].
  { discriminate Hsplit. }
  rewrite Hsplit. simpl lookup. unfold encode_cell.
  rewrite Hm1, Hm2, Hm3, Hm4. simpl.
  rewrite !getColumnIndex_getColumnLetter by lia.
  rewrite Hp1, Hp2.
  rewrite (convertSheetToText_rows_text _ _ _ _ startRow [] eq_refl).
  reflexivity.
Qed.

End Serializer.

Lemma serialize_blank_rows sheet startCol startRow endCol endRow :
  (forall row, startRow <= row <= endRow ->
     Spec.row_text sheet startCol endCol row = [10%N]) ->
  Spec.serialize sheet startCol startRow endCol endRow =
  replicate (Z.to_nat (endRow + 1 - startRow)) 10%N.
Proof.
  intros Hrows. unfold Spec.serialize.
  rewrite <- (length_seqZ startRow (endRow + 1 - startRow)).
  assert (Hin : forall row, row ∈ seqZ startRow (endRow + 1 - startRow) ->
            Spec.row_text sheet startCol endCol row = [10%N]).
  { intros row Hrow. apply elem_of_seqZ in Hrow. apply Hrows. lia. }
  induction (seqZ startRow (endRow + 1 - startRow)) as [|row rows IH]; csimpl.
  - reflexivity.
  - rewrite Hin by left. rewrite IH; [reflexivity |].
    intros row' Hrow'. apply Hin. right. exact Hrow'.
Qed.

Lemma row_text_blank sheet startCol endCol row :
  (forall col, startCol <= col <= endCol ->
     cells sheet !! encode_cell col row = None) ->
  Spec.row_text sheet startCol endCol row = [10%N].
Proof.
  intros Hcols. unfold Spec.row_text.
  assert (Hin : forall col, col ∈ seqZ startCol (endCol + 1 - startCol) ->
            Spec.cell_text sheet row col = []).
  { intros col Hcol. apply elem_of_seqZ in Hcol.
    unfold Spec.cell_text. rewrite Hcols by lia. reflexivity. }
  induction (seqZ startCol (endCol + 1 - startCol)) as [|col cols IH]; csimpl.
  - reflexivity.
  - rewrite Hin by left. apply IH.
    intros col' Hcol'. apply Hin. right. exact Hcol'.
Qed.

(** C3, as the code has it: [convertSheetToText] has no [InvalidRange]
    failure.  On every sheet whose range text names a start and an
    end within the columns and rows of a worksheet, in whatever order,
    it returns a text: the empty text when the start row is after the
    end row, and one newline per row when the start column is after
    the end column.  As the claim says, absent cells are no failure
    either: a range without cells gives one newline per row. *)
Theorem convertSheetToText_no_InvalidRange
    (sheet : sheet) (startCol startRow endCol endRow : number) :
  1 <= startCol <= MAX_COLUMN -> 0 <= startRow <= MAX_ROW ->
  1 <= endCol <= MAX_COLUMN -> 0 <= endRow <= MAX_ROW ->
  ref sheet = Some (encode_range startCol startRow endCol endRow) ->
  ~ fails (convertSheetToText sheet) /\
  (endRow < startRow -> convertSheetToText sheet = Normal []) /\
  (endCol < startCol ->
   convertSheetToText sheet =
   Normal (replicate (Z.to_nat (endRow + 1 - startRow)) 10%N)) /\
  ((forall row col, startRow <= row <= endRow -> startCol <= col <= endCol ->
      cells sheet !! encode_cell col row = None) ->
   convertSheetToText sheet =
   Normal (replicate (Z.to_nat (endRow + 1 - startRow)) 10%N)).
Proof.
  intros [Hc1 _] [Hr1 _] [Hc2 _] [Hr2 _] Href.
  rewrite (convertSheetToText_encode_range sheet _ _ _ _ Hc1 Hr1 Hc2 Hr2 Href).
  split; [intros [e He]; discriminate He |].
  split; [| split].
  - intros Hrows. unfold Spec.serialize.
    rewrite seqZ_nil by lia. reflexivity.
  - intros Hcols. f_equal. apply serialize_blank_rows.
    intros row _. unfold Spec.row_text.
    rewrite seqZ_nil by lia. reflexivity.
  - intros Habsent. f_equal. apply serialize_blank_rows.
    intros row Hrow. apply row_text_blank.
    intros col Hcol. apply Habsent; assumption.
Qed.

Lemma convertSheetToText_no_InvalidRange_witness :
  ~ fails (convertSheetToText (Sheet (Some (js "C5:A1")) cells_A1_x)) /\
  convertSheetToText (Sheet (Some (js "C5:A1")) cells_A1_x) = Normal [].
Proof.
  destruct (convertSheetToText_no_InvalidRange
              (Sheet (Some (js "C5:A1")) cells_A1_x) 3 5 1 1)
    as (Hok & Hrows & _); try (unfold MAX_COLUMN, MAX_ROW; lia).
  - vm_compute. reflexivity.
  - split; [exact Hok | apply Hrows; lia].
Defined.

(** C3 fails as stated: with the start after the end in both
    components ([B2:A1]) the service returns the empty text, and with
    only the start column after the end column ([B1:A2]) it returns
    two newlines; neither call fails. *)
Lemma convertSheetToText_accepts_reversed_range :
  convertSheetToText (Sheet (Some (js "B2:A1")) cells_A1_x) = Normal [] /\
  convertSheetToText (Sheet (Some (js "B1:A2")) cells_A1_x)
    = Normal (newline ++ newline) /\
  ~ fails (convertSheetToText (Sheet (Some (js "B2:A1")) cells_A1_x)) /\
  ~ fails (convertSheetToText (Sheet (Some (js "B1:A2")) cells_A1_x)).
Proof.
  repeat split; try (vm_compute; reflexivity);
    intros [e He]; vm_compute in He; discriminate He.
Qed.



(** C10: a sheet without a range reference serializes to the empty
    text, with no row and no newline, whatever cells it holds; the
    call does not fail. *)
Theorem convertSheetToText_without_ref (cells : gmap (list N) cell) :
  convertSheetToText (Sheet None cells) = Normal [].
Proof. reflexivity. Qed.

(** Beyond the claims.  A ['!ref'] without a colon, the text the
    workbook reader writes for the range of a single cell, leaves [end]
    undefined, and the call throws a [TypeError]; a [TypeError] is all
    [convertSheetToText] ever throws. *)
Remark convertSheetToText_single_cell_ref :
  convertSheetToText (Sheet (Some (js "A1")) cells_A1_x) = Throw TypeError.
Proof. vm_compute. reflexivity. Qed.

Lemma match_0_throws_TypeError s r e :
  match_0 s r = Throw e -> e = TypeError.
Proof.
  unfold match_0. intros H.
  repeat case_match; congruence.
Qed.

Remark convertSheetToText_throws_only_TypeError sheet e :
  convertSheetToText sheet = Throw e -> e = TypeError.
Proof.
  unfold convertSheetToText.
  destruct (ref sheet) as [[|c range']|]; try discriminate.
  set (pieces := split 58%N (c :: range')).
  destruct (match_0 (pieces !! 0%nat) (Plus upper)) eqn:H1;
    [| intros [= <-]; exact (match_0_throws_TypeError _ _ _ H1)].
  destruct (match_0 (pieces !! 0%nat) (Plus digit)) eqn:H2;
    [| intros [= <-]; exact (match_0_throws_TypeError _ _ _ H2)].
  destruct (match_0 (pieces !! 1%nat) (Plus upper)) eqn:H3;
    [| intros [= <-]; exact (match_0_throws_TypeError _ _ _ H3)].
  destruct (match_0 (pieces !! 1%nat) (Plus digit)) eqn:H4;
    [| intros [= <-]; exact (match_0_throws_TypeError _ _ _ H4)].
  discriminate.
Qed.

(** * Properties of [JSON.parse] *)

Section Parser.
Import JSON.

Lemma skip_ws_length s : (length (skip_ws s) <= length s)%nat.
Proof.
  induction s as [|c s IH]; simpl; [lia |].
  destruct (ws c); simpl; lia.
Qed.

Lemma strip_prefix_length p s rest :
  strip_prefix p s = Some rest ->
  length s = (length p + length rest)%nat.
Proof.
  revert s. induction p as [|a p IH]; intros s H; simpl in *.
  - congruence.
  - destruct s as [|b s]; [discriminate H |].
    destruct (decide (a = b)); [| discriminate H].
    simpl. rewrite (IH _ H). reflexivity.
Qed.

Lemma digits_length s ds rest :
  digits s = (ds, rest) -> length s = (length ds + length rest)%nat.
Proof.
  revert ds rest. induction s as [|c s IH]; simpl; intros ds rest H.
  - inversion H. reflexivity.
  - destruct (digit c).
    + destruct (digits s) as [ds' rest'] eqn:E. inversion H; subst.
      simpl. rewrite (IH _ _ eq_refl). reflexivity.
    + inversion H. reflexivity.
Qed.

Ltac digits_lengths :=
  repeat match goal with
         | H : digits _ = (_, _) |- _ => apply digits_length in H
         | H : strip_prefix _ _ = Some _ |- _ =>
             apply strip_prefix_length in H
         end.

Lemma parse_unsigned_length s m e rest :
  parse_unsigned s = Some (m, e, rest) -> (length rest < length s)%nat.
Proof.
  unfold parse_unsigned. intros H.
  repeat (case_match; simplify_eq); digits_lengths; simpl in *; lia.
Qed.

Lemma parse_number_length s m e rest :
  parse_number s = Some (m, e, rest) -> (length rest < length s)%nat.
Proof.
  unfold parse_number. intros H.
  repeat case_match; simplify_eq;
    repeat match goal with
           | H : parse_unsigned _ = Some _ |- _ =>
               apply parse_unsigned_length in H
           | H : strip_prefix _ _ = Some _ |- _ =>
               apply strip_prefix_length in H
           end; simpl in *; lia.
Qed.

Lemma parse_chars_length :
  forall n s acc str rest,
    (length s <= n)%nat ->
    parse_chars s acc = Some (str, rest) -> (length rest < length s)%nat.
Proof.
  induction n as [|n IH]; intros s acc str rest Hn H;
    destruct s as [|c s]; simpl in *; try discriminate H; try lia.
  repeat case_match; simplify_eq; simpl in *; try lia;
    apply IH in H; simpl in *; lia.
Qed.

Ltac facts :=
  repeat match goal with
         | H : skip_ws ?x = _ |- _ =>
             let H' := fresh "Hws" in
             pose proof (skip_ws_length x) as H'; rewrite H in H';
             simpl in H'; clear H
         | H : strip_prefix _ _ = Some _ |- _ =>
             apply strip_prefix_length in H; simpl in H
         | H : parse_chars _ _ = Some _ |- _ =>
             apply (parse_chars_length _ _ _ _ _ (Nat.le_refl _)) in H
         | H : parse_number _ = Some _ |- _ =>
             apply parse_number_length in H; simpl in H
         end.

Ltac ws_facts :=
  repeat match goal with
         | H : context [length (skip_ws ?x)] |- _ =>
             lazymatch goal with
             | _ : (length (skip_ws x) <= length x)%nat |- _ => fail
             | _ => pose proof (skip_ws_length x)
             end
         end.

Ltac leaf :=
  split; [discriminate | intros; simplify_eq; ws_facts; simpl in *; lia].

Ltac parsed Hlen :=
  try match goal with
      | H : _ = Parsed _ _ |- _ => apply Hlen in H
      end.

Ltac recurse IHe IHm :=
  try match goal with
      | |- parse_members _ ?l ?acc <> _ /\ _ =>
          let Hne := fresh in
          let Hlen := fresh in
          destruct (IHm l acc ltac:(ws_facts; simpl in *; lia)) as [Hne Hlen];
          split; [exact Hne |];
          let Hp := fresh in
          intros ? ? Hp; apply Hlen in Hp; ws_facts; simpl in *; lia
      | |- parse_elements _ ?l ?acc <> _ /\ _ =>
          let Hne := fresh in
          let Hlen := fresh in
          destruct (IHe l acc ltac:(ws_facts; simpl in *; lia)) as [Hne Hlen];
          split; [exact Hne |];
          let Hp := fresh in
          intros ? ? Hp; apply Hlen in Hp; ws_facts; simpl in *; lia
      end.

(** The fuel [JSON.parse] gives its parser is enough: with more than
    twice the length of the text the parser never stops for lack of
    fuel, and what it leaves unread is shorter than what it was
    given. *)
Lemma parser_fuel :
  forall fuel,
    (forall s, (2 * length s < fuel)%nat ->
       parse_value fuel s <> OutOfFuel /\
       forall v rest, parse_value fuel s = Parsed v rest ->
         (length rest < length s)%nat) /\
    (forall s acc, (2 * length s + 1 < fuel)%nat ->
       parse_elements fuel s acc <> OutOfFuel /\
       forall v rest, parse_elements fuel s acc = Parsed v rest ->
         (length rest < length s)%nat) /\
    (forall s acc, (2 * length s + 1 < fuel)%nat ->
       parse_members fuel s acc <> OutOfFuel /\
       forall v rest, parse_members fuel s acc = Parsed v rest ->
         (length rest < length s)%nat).
Proof.
  induction fuel as [|fuel (IHv & IHe & IHm)].
  { repeat split; intros; lia. }
  split; [| split].
  - intros s Hfuel. cbn [parse_value parse_elements parse_members].
    repeat case_match; facts; recurse IHe IHm; leaf.
  - intros s acc Hfuel. cbn [parse_value parse_elements parse_members].
    destruct (IHv s ltac:(lia)) as [Hne Hlen].
    destruct (parse_value fuel s) as [v s1| |]; [| leaf | congruence].
    specialize (Hlen _ _ eq_refl).
    repeat case_match; facts; recurse IHe IHm; leaf.
  - intros s acc Hfuel. cbn [parse_value parse_elements parse_members].
    repeat case_match; try congruence; facts; try leaf;
      match goal with
      | H : parse_value _ ?x = _ |- _ =>
          destruct (IHv x ltac:(ws_facts; simpl in *; lia)) as [Hne Hlen]
      end; try congruence; parsed Hlen; recurse IHe IHm; leaf.
Qed.

Lemma parse_fuel_enough text :
  parse_value (2 * length text + 1) text <> OutOfFuel.
Proof.
  destruct (parser_fuel (2 * length text + 1)) as (Hv & _).
  apply Hv. lia.
Qed.

(** No JSON text starts with a backtick. *)
Lemma parse_backtick text rest :
  skip_ws text = 96%N :: rest -> parse text = Throw SyntaxError.
Proof.
  intros Hskip. unfold parse.
  replace (2 * length text + 1)%nat with (S (2 * length text)) by lia.
  cbn [parse_value]. rewrite Hskip. reflexivity.
Qed.

End Parser.

(** * Properties of [parseGroqResponse] *)

Section Extractor.

Lemma parseGroqResponse_parse response :
  parseGroqResponse response =
  match JSON.parse (jsonString response) with
  | Normal value => Normal value
  | Throw _ => Throw Invalid_response_format
  end.
Proof. reflexivity. Qed.

Lemma jsonString_json_fence response whole interior :
  exec json_fence response = Some [whole; interior] ->
  jsonString response = if decide (interior = []) then response else interior.
Proof.
  intros Hexec. unfold jsonString, jsonMatch. rewrite Hexec. simpl.
  destruct interior; reflexivity.
Qed.

Lemma jsonString_plain_fence response whole interior :
  exec json_fence response = None ->
  exec plain_fence response = Some [whole; interior] ->
  jsonString response = if decide (interior = []) then response else interior.
Proof.
  intros Hjson Hexec. unfold jsonString, jsonMatch.
  rewrite Hjson, Hexec. simpl.
  destruct interior; reflexivity.
Qed.

Lemma jsonString_no_fence response :
  exec json_fence response = None ->
  exec plain_fence response = None ->
  jsonString response = response.
Proof.
  intros Hjson Hplain. unfold jsonString, jsonMatch.
  rewrite Hjson, Hplain. simpl. destruct response; reflexivity.
Qed.

Lemma strip_prefix_app p s : strip_prefix p (p ++ s) = Some s.
Proof.
  induction p as [|a p IH]; simpl; [reflexivity |].
  destruct (decide (a = a)); [exact IH | congruence].
Qed.

Lemma exec_here r s array :
  run r s [] (fun s' caps => Some (take (length s - length s') s :: caps))
    = Some array ->
  exec r s = Some array.
Proof. intros Hrun. destruct s; simpl in *; rewrite Hrun; reflexivity. Qed.

Lemma star_lazy_stop {R} class (k : jsstring -> option R) s r :
  k s = Some r -> star_lazy class k s = Some r.
Proof. intros Hk. destruct s; simpl; rewrite Hk; reflexivity. Qed.

(** At a closing fence the lazy group of [fence_tail] stops at once,
    empty. *)
Lemma run_fence_tail_closing {R} (k : jsstring -> list jsstring -> option R)
    caps rest :
  is_Some (k rest (caps ++ [[]])) ->
  run fence_tail (js "```" ++ rest) caps k = k rest (caps ++ [[]]).
Proof.
  intros [r Hr]. unfold fence_tail. cbn [run].
  rewrite Hr. apply star_lazy_stop.
  rewrite (star_greedy_run space _ [] (js "```" ++ rest));
    [| constructor | vm_compute; discriminate |];
    rewrite strip_prefix_app, Nat.sub_diag, take_0; eauto.
Qed.

(** An opening [```json] fence, white space and a closing fence:
    the pattern matches there with an empty interior. *)
Lemma exec_json_fence_blank blank rest :
  Forall (fun c => space c = true) blank ->
  exec json_fence (js "```json" ++ blank ++ js "```" ++ rest) =
  Some [js "```json" ++ blank ++ js "```"; []].
Proof.
  intros Hblank.
  set (s := js "```json" ++ blank ++ js "```" ++ rest).
  assert (Hrun : forall k : jsstring -> list jsstring -> option (list jsstring),
            is_Some (k rest [[]]) ->
            run json_fence s [] k = k rest [[]]).
  { intros k Hk. unfold json_fence, s.
    change (run (Seq ?a (Seq ?b ?c)) ?s ?caps ?k)
      with (match strip_prefix (js "```json") s with Some s' => star_greedy space (fun s'' => run fence_tail s'' [] k) s' | None => None end).
    cbn [run].
    rewrite strip_prefix_app.
    rewrite star_greedy_run;
      [| exact Hblank | vm_compute; discriminate |];
      rewrite (run_fence_tail_closing k [] rest Hk); [reflexivity | exact Hk]. }
  apply exec_here. rewrite Hrun by eauto. do 2 f_equal.
  unfold s. rewrite !app_assoc, <- (app_assoc _ blank).
  apply take_app_length'. rewrite !length_app. lia.
Qed.

(** Whatever a star lets through, its continuation accepted. *)
Lemma star_greedy_inv {R} class (k : jsstring -> option R) s r :
  star_greedy class k s = Some r -> exists s', k s' = Some r.
Proof.
  induction s as [|c s IH]; simpl; [eauto |].
  destruct (class c); [| eauto].
  destruct (star_greedy class k s) as [r'|]; [| eauto].
  intros [= ->]. apply IH. reflexivity.
Qed.

Lemma star_lazy_inv {R} class (k : jsstring -> option R) s r :
  star_lazy class k s = Some r -> exists s', k s' = Some r.
Proof.
  induction s as [|c s IH]; simpl.
  - destruct (k []) eqn:Hk; [intros [= ->]; eauto | discriminate].
  - destruct (k (c :: s)) eqn:Hk; [intros [= ->]; eauto |].
    destruct (class c); [exact IH | discriminate].
Qed.

Lemma exec_inv r s array :
  exec r s = Some array ->
  exists s0,
    run r s0 []
      (fun s' caps => Some (take (length s0 - length s') s0 :: caps))
    = Some array.
Proof.
  induction s as [|c s IH]; cbn [exec].
  - destruct (run r [] [] _) eqn:Hrun; [intros [= ->]; eauto | discriminate].
  - destruct (run r (c :: s) [] _) eqn:Hrun; [intros [= ->]; eauto | exact IH].
Qed.

(** A match of a fence pattern is the matched text and one group. *)
Lemma exec_fence_shape opening response array :
  exec (Seq (Chars opening) (Seq (Star true space) fence_tail)) response
    = Some array ->
  exists whole interior, array = [whole; interior].
Proof.
  intros Hexec. apply exec_inv in Hexec. destruct Hexec as [s0 Hrun].
  unfold fence_tail in Hrun. cbn [run] in Hrun.
  destruct (strip_prefix opening s0) as [s1|]; [| discriminate Hrun].
  apply star_greedy_inv in Hrun. destruct Hrun as [s2 Hrun].
  apply star_lazy_inv in Hrun. destruct Hrun as [s3 Hrun].
  apply star_greedy_inv in Hrun. destruct Hrun as [s4 Hrun].
  destruct (strip_prefix _ s4) as [s5|]; [| discriminate Hrun].
  inversion Hrun. eauto.
Qed.

Lemma strip_prefix_app_None p q s :
  strip_prefix p s = None -> strip_prefix (p ++ q) s = None.
Proof.
  revert s. induction p as [|a p IH]; intros s; simpl; [discriminate |].
  destruct s as [|b s]; [reflexivity |].
  destruct (decide (a = b)); [apply IH | reflexivity].
Qed.

(** Without three backticks in a row neither fence pattern matches. *)
Lemma no_backticks_no_fence response :
  includes (js "```") response = false ->
  exec json_fence response = None /\ exec plain_fence response = None.
Proof.
  unfold json_fence, plain_fence.
  induction response as [|c response IH]; cbn [includes exec run];
    destruct (strip_prefix (js "```") _) eqn:Hfence; try discriminate;
    change (js "```json") with (js "```" ++ js "json");
    rewrite (strip_prefix_app_None _ (js "json") _ Hfence); auto.
Qed.

End Extractor.

(** C1, as the code has it: for every response text
    [parseGroqResponse] returns the parsed value when [JSON.parse]
    accepts the chosen candidate, and otherwise throws an [Error]
    whose message is the fixed text "Invalid response format from
    Groq"; it raises nothing else, and the parser behind [JSON.parse]
    always comes to its verdict. *)
Theorem parseGroqResponse_returns_or_throws_Error (response : jsstring) :
  parseGroqResponse response =
  match JSON.parse (jsonString response) with
  | Normal value => Normal value
  | Throw _ => Throw (Error (js "Invalid response format from Groq"))
  end /\
  JSON.parse_value (2 * length (jsonString response) + 1)
    (jsonString response) <> JSON.OutOfFuel.
Proof.
  split; [reflexivity | apply parse_fuel_enough].
Qed.

(** C1 fails as stated: on "not json at all" the call raises a fault,
    an [Error] thrown to the caller, and the thrown value holds the
    fixed message, not the raw text. *)
Lemma parseGroqResponse_throws_fixed_message :
  parseGroqResponse (js "not json at all") = Throw Invalid_response_format /\
  fails (parseGroqResponse (js "not json at all")) /\
  Invalid_response_format <> Error (js "not json at all").
Proof.
  split; [vm_compute; reflexivity |].
  split; [exists Invalid_response_format; vm_compute; reflexivity |].
  vm_compute. discriminate.
Qed.

(** C2, as the code has it: when neither fence pattern matches, which
    is so whenever the text has no three backticks in a row, the
    candidate is the whole raw text, and the call succeeds exactly when
    [JSON.parse] accepts the whole text.  JSON inside prose is not
    looked for: on 'here is the data: {"a":1} thanks' the call throws. *)
Theorem parseGroqResponse_whole_text_fallback :
  (forall response,
     exec json_fence response = None -> exec plain_fence response = None ->
     jsonString response = response /\
     parseGroqResponse response =
     match JSON.parse response with
     | Normal value => Normal value
     | Throw _ => Throw Invalid_response_format
     end) /\
  (forall response,
     includes (js "```") response = false ->
     exec json_fence response = None /\ exec plain_fence response = None) /\
  parseGroqResponse prose_text = Throw Invalid_response_format.
Proof.
  split; [| split].
  - intros response Hjson Hplain.
    rewrite parseGroqResponse_parse.
    rewrite (jsonString_no_fence response Hjson Hplain). auto.
  - apply no_backticks_no_fence.
  - vm_compute. reflexivity.
Qed.

Lemma parseGroqResponse_whole_text_fallback_witness :
  jsonString object_a_1 = object_a_1 /\
  parseGroqResponse object_a_1 = Normal value_a_1.
Proof.
  destruct (proj1 (proj2 parseGroqResponse_whole_text_fallback) object_a_1)
    as [Hjson Hplain]; [vm_compute; reflexivity |].
  destruct (proj1 parseGroqResponse_whole_text_fallback object_a_1 Hjson Hplain)
    as [Hcandidate Hresult].
  split; [exact Hcandidate |].
  rewrite Hresult. vm_compute. reflexivity.
Defined.

(** C2 fails as stated: on 'here is the data: {"a":1} thanks' no fence
    matches, the candidate is the whole text, [JSON.parse] rejects it
    and the call throws instead of returning [{a: 1}]. *)
Lemma parseGroqResponse_rejects_json_in_prose :
  jsonString prose_text = prose_text /\
  JSON.parse prose_text = Throw SyntaxError /\
  parseGroqResponse prose_text = Throw Invalid_response_format /\
  parseGroqResponse prose_text <> Normal value_a_1.
Proof.
  repeat split; try (vm_compute; reflexivity).
  vm_compute. discriminate.
Qed.

(** C8, as the code has it: the candidate is the interior of the first
    [```json] fence when that interior is not empty; without a
    [```json] fence it is the interior of the first plain fence when
    that interior is not empty; without any fence it is the whole raw
    text.  (A match of either pattern is the matched text and its
    interior.)  On the text of three lines [```json], [{"a":1}],
    [```] the candidate is the middle line and the call returns
    [{a: 1}]. *)
Theorem jsonString_priority_order :
  (forall response whole interior,
     exec json_fence response = Some [whole; interior] -> interior <> [] ->
     jsonString response = interior) /\
  (forall response whole interior,
     exec json_fence response = None ->
     exec plain_fence response = Some [whole; interior] -> interior <> [] ->
     jsonString response = interior) /\
  (forall response,
     exec json_fence response = None -> exec plain_fence response = None ->
     jsonString response = response) /\
  (forall response array,
     exec json_fence response = Some array \/
     exec plain_fence response = Some array ->
     exists whole interior, array = [whole; interior]) /\
  exec json_fence fenced_text = Some [fenced_text; object_a_1] /\
  jsonString fenced_text = object_a_1 /\
  parseGroqResponse fenced_text = Normal value_a_1.
Proof.
  split; [| split; [| split; [| split]]].
  - intros response whole interior Hjson Hne.
    rewrite (jsonString_json_fence _ _ _ Hjson).
    destruct (decide (interior = [])); congruence.
  - intros response whole interior Hjson Hplain Hne.
    rewrite (jsonString_plain_fence _ _ _ Hjson Hplain).
    destruct (decide (interior = [])); congruence.
  - apply jsonString_no_fence.
  - intros response array [Hexec | Hexec];
      exact (exec_fence_shape _ _ _ Hexec).
  - repeat split; vm_compute; reflexivity.
Qed.

Lemma jsonString_priority_order_witness :
  jsonString (js "x```json [1] ``` ```[2]```") = js "[1]" /\
  jsonString (js "x``` [2] ```") = js "[2]" /\
  jsonString (js "[3]") = js "[3]".
Proof.
  destruct jsonString_priority_order as (Hjson & Hplain & Hnone & _).
  split; [| split].
  - apply (Hjson _ (js "```json [1] ```"));
      [vm_compute; reflexivity | discriminate].
  - apply (Hplain _ (js "``` [2] ```"));
      [vm_compute; reflexivity | vm_compute; reflexivity | discriminate].
  - apply Hnone; vm_compute; reflexivity.
Defined.

(** C8 fails as stated: in the quoted text ["``` ```"] the plain fence
    pattern is the first to match and its interior is empty, yet the
    candidate is the whole raw text, which is a JSON string: the call
    returns it, where the empty interior would not parse. *)
Lemma jsonString_skips_empty_first_match :
  exec json_fence quoted_plain_fence = None /\
  exec plain_fence quoted_plain_fence = Some [js "``` ```"; []] /\
  jsonString quoted_plain_fence = quoted_plain_fence /\
  jsonString quoted_plain_fence <> [] /\
  parseGroqResponse quoted_plain_fence
    = Normal (JSON.JString (js "``` ```")) /\
  JSON.parse [] = Throw SyntaxError.
Proof.
  repeat split; try (vm_compute; reflexivity).
  vm_compute. discriminate.
Qed.

(** C9, as the code has it: when the first fence to match has an empty
    interior the candidate is the whole raw text, which is then
    parsed.  When the raw text starts with a [```json] fence, white
    space or nothing, and a closing fence, as in the example, that is
    the case, and parsing fails: the call throws. *)
Theorem jsonString_empty_interior_is_raw_text :
  (forall response whole,
     exec json_fence response = Some [whole; []] ->
     jsonString response = response) /\
  (forall response whole,
     exec json_fence response = None ->
     exec plain_fence response = Some [whole; []] ->
     jsonString response = response) /\
  (forall blank rest,
     Forall (fun c => space c = true) blank ->
     let response := js "```json" ++ blank ++ js "```" ++ rest in
     exec json_fence response = Some [js "```json" ++ blank ++ js "```"; []] /\
     jsonString response = response /\
     JSON.parse (jsonString response) = Throw SyntaxError /\
     parseGroqResponse response = Throw Invalid_response_format).
Proof.
  split; [| split].
  - intros response whole Hjson.
    rewrite (jsonString_json_fence _ _ _ Hjson). reflexivity.
  - intros response whole Hjson Hplain.
    rewrite (jsonString_plain_fence _ _ _ Hjson Hplain). reflexivity.
  - intros blank rest Hblank response.
    pose proof (exec_json_fence_blank blank rest Hblank) as Hexec.
    fold response in Hexec.
    assert (Hcandidate : jsonString response = response)
      by (rewrite (jsonString_json_fence _ _ _ Hexec); reflexivity).
    assert (Hparse : JSON.parse response = Throw SyntaxError)
      by (apply (parse_backtick _ (js "``json" ++ blank ++ js "```" ++ rest));
          reflexivity).
    rewrite parseGroqResponse_parse, Hcandidate, Hparse. auto.
Qed.

Lemma jsonString_empty_interior_is_raw_text_witness :
  jsonString (js "```json```") = js "```json```" /\
  parseGroqResponse (js "```json```") = Throw Invalid_response_format /\
  parseGroqResponse (js "```json" ++ [32; 10]%N ++ js "``` and so on")
    = Throw Invalid_response_format.
Proof.
  destruct jsonString_empty_interior_is_raw_text as (_ & _ & Hblank).
  split; [| split].
  - apply (Hblank [] []). constructor.
  - apply (Hblank [] []). constructor.
  - apply (Hblank [32; 10]%N (js " and so on")).
    repeat constructor.
Defined.

(** C9 fails as stated: in the quoted text ["```json```"] the
    [```json] fence matches with an empty interior and the candidate
    is the whole raw text, which has backticks and yet parses, as a
    JSON string; the call returns it. *)
Lemma raw_text_with_backticks_parses :
  exec json_fence quoted_json_fence = Some [js "```json```"; []] /\
  jsonString quoted_json_fence = quoted_json_fence /\
  96%N ∈ quoted_json_fence /\
  parseGroqResponse quoted_json_fence
    = Normal (JSON.JString (js "```json```")).
Proof.
  repeat split; try (vm_compute; reflexivity).
  vm_compute. do 1 right. left.
Qed.

(** * Further properties of the column helpers *)

Lemma foldl_step_nonneg letters :
  Forall (fun c => upper c = true) letters -> 0 <= foldl step 0 letters.
Proof.
  induction letters as [|c letters IH] using rev_ind; intros Hupper.
  - simpl. lia.
  - apply Forall_app in Hupper. destruct Hupper as [Hletters Hc].
    apply Forall_inv in Hc. unfold upper in Hc.
    apply andb_true_iff in Hc. destruct Hc as [Hlo Hhi].
    apply N.leb_le in Hlo, Hhi.
    rewrite foldl_app. simpl. unfold step at 1.
    specialize (IH Hletters). lia.
Qed.

(** X1: encoding the index of a column name gives the name back, for
    every string of at most 11 uppercase letters (the empty one
    included), whose index is a safe integer. *)
Theorem getColumnLetter_getColumnIndex (letters : jsstring) :
  Forall (fun c => upper c = true) letters -> (length letters <= 11)%nat ->
  0 <= getColumnIndex letters <= MAX_SAFE_INTEGER /\
  getColumnLetter (getColumnIndex letters) = letters.
Proof.
  intros Hupper Hlength. split.
  { split; [| apply getColumnIndex_safe; right; auto].
    rewrite getColumnIndex_foldl. apply foldl_step_nonneg. exact Hupper. }
  clear Hlength. revert Hupper.
  rewrite getColumnIndex_foldl. unfold getColumnLetter.
  induction letters as [|c letters IH] using rev_ind; intros Hupper.
  - simpl. apply getColumnLetter_loop_nonpos. lia.
  - apply Forall_app in Hupper. destruct Hupper as [Hletters Hc].
    pose proof (foldl_step_nonneg letters Hletters) as Hnonneg.
    apply Forall_inv in Hc. unfold upper in Hc.
    apply andb_true_iff in Hc. destruct Hc as [Hlo Hhi].
    apply N.leb_le in Hlo, Hhi.
    rewrite foldl_app. simpl. unfold step at 1.
    set (index := foldl step 0 letters) in *.
    set (d := Z.of_N c - 64).
    assert (Hd : 1 <= d <= 26) by (unfold d; lia).
    rewrite getColumnLetter_loop_pos by lia.
    replace (index * 26 + d - 1) with (d - 1 + index * 26) by lia.
    rewrite Z.rem_mod_nonneg by lia.
    rewrite Z_div_plus, Z_mod_plus by lia.
    rewrite Z.div_small, Z.mod_small, Z.add_0_l by lia.
    rewrite getColumnLetter_loop_app by lia.
    rewrite (IH Hletters). unfold fromCharCode. simpl.
    do 2 f_equal. unfold d. lia.
Qed.

Lemma getColumnLetter_getColumnIndex_witness :
  0 <= getColumnIndex (js "XFD") <= MAX_SAFE_INTEGER /\
  getColumnLetter (getColumnIndex (js "XFD")) = js "XFD".
Proof.
  apply (getColumnLetter_getColumnIndex (js "XFD")).
  - repeat constructor.
  - simpl. lia.
Defined.

(** The letters of an address give the column back and the digits
    the row. *)
Lemma encode_cell_eq (col row col' row' : number) :
  1 <= col -> 0 <= row -> 1 <= col' -> 0 <= row' ->
  encode_cell col row = encode_cell col' row' ->
  col = col' /\ row = row'.
Proof.
  intros Hc Hr Hc' Hr' Heq.
  destruct (encode_cell_parts col row Hc Hr) as (Hl & Hln & Hd & Hdn).
  destruct (encode_cell_parts col' row' Hc' Hr') as (Hl' & Hln' & Hd' & Hdn').
  destruct (match_0_address _ _ Hl Hln Hd Hdn) as [Hm1 Hm2].
  destruct (match_0_address _ _ Hl' Hln' Hd' Hdn') as [Hm1' Hm2'].
  unfold encode_cell in Heq. rewrite Heq in Hm1, Hm2.
  rewrite Hm1 in Hm1'. rewrite Hm2 in Hm2'.
  injection Hm1' as Hletters. injection Hm2' as Hdigits.
  split.
  - rewrite <- (getColumnIndex_getColumnLetter col) by lia.
    rewrite <- (getColumnIndex_getColumnLetter col') by lia.
    rewrite Hletters. reflexivity.
  - destruct (number_to_string_spec row Hr) as (_ & _ & Hp).
    destruct (number_to_string_spec row' Hr') as (_ & _ & Hp').
    rewrite <- Hp, <- Hp', Hdigits. reflexivity.
Qed.

(** X2: two cells whose columns and rows are safe integers have the
    same address only when they are the same cell: the letters give
    the column back and the digits the row. *)
Theorem encode_cell_inj (col row col' row' : number) :
  1 <= col <= MAX_SAFE_INTEGER -> 0 <= row <= MAX_SAFE_INTEGER ->
  1 <= col' <= MAX_SAFE_INTEGER -> 0 <= row' <= MAX_SAFE_INTEGER ->
  encode_cell col row = encode_cell col' row' ->
  col = col' /\ row = row'.
Proof.
  intros [Hc _] [Hr _] [Hc' _] [Hr' _].
  apply encode_cell_eq; assumption.
Qed.

Lemma encode_cell_inj_witness :
  encode_cell 28 3 = js "AB3" /\ (28 = 28 /\ 3 = 3).
Proof.
  split; [vm_compute; reflexivity |].
  apply (encode_cell_inj 28 3 28 3);
    try (unfold MAX_SAFE_INTEGER; lia). reflexivity.
Defined.

(** * Further properties of [convertSheetToText] *)

Section SerializerEdges.

Lemma star_greedy_is_Some {R} class (k : jsstring -> option R) s :
  (forall s', is_Some (k s')) -> is_Some (star_greedy class k s).
Proof.
  intros Hk. induction s as [|c s IH]; simpl; [apply Hk |].
  destruct (class c); [| apply Hk].
  destruct (star_greedy class k s); [eauto | apply Hk].
Qed.

Lemma exec_Plus_None class s :
  existsb class s = false -> exec (Plus class) s = None.
Proof.
  induction s as [|c s IH]; cbn [exec run existsb]; [reflexivity |].
  intros Hs. apply orb_false_iff in Hs. destruct Hs as [Hc Hs].
  rewrite Hc. exact (IH Hs).
Qed.

Lemma exec_Plus_Some class s :
  existsb class s = true -> exists whole, exec (Plus class) s = Some [whole].
Proof.
  induction s as [|c s IH]; cbn [exec run existsb]; [discriminate |].
  intros Hs. destruct (class c) eqn:Hc.
  - match goal with
    | |- context [star_greedy class ?k s] =>
        destruct (star_greedy_is_Some class k s) as [array Harray];
        [eauto | rewrite Harray;
                 apply star_greedy_inv in Harray;
                 destruct Harray as [s' [= <-]]; eauto]
    end.
  - simpl in Hs. exact (IH Hs).
Qed.

Lemma match_0_Plus_false class s :
  existsb class s = false -> match_0 (Some s) (Plus class) = Throw TypeError.
Proof. intros Hs. unfold match_0. rewrite exec_Plus_None by exact Hs. reflexivity. Qed.

Lemma match_0_Plus_true class s :
  existsb class s = true ->
  exists whole, match_0 (Some s) (Plus class) = Normal whole.
Proof.
  intros Hs. unfold match_0.
  destruct (exec_Plus_Some class s Hs) as [whole Hexec].
  rewrite Hexec. eauto.
Qed.

(** An unreadable range text stops the call at one of the four
    matches; a readable one gets past them, and nothing after them
    throws. *)
Lemma convertSheetToText_unreadable (sheet : sheet) (range : jsstring) :
  ref sheet = Some range -> range <> [] ->
  readable_ref range = false ->
  convertSheetToText sheet = Throw TypeError.
Proof.
  intros Href Hne. unfold convertSheetToText, readable_ref. rewrite Href.
  destruct range as [|c range']; [congruence |].
  destruct (split 58%N (c :: range')) as [|start [|end_ pieces]];
    cbn [lookup list_lookup].
  - reflexivity.
  - intros _.
    destruct (match_0 (Some start) (Plus upper)) eqn:H1;
      [| rewrite (match_0_throws_TypeError _ _ _ H1); reflexivity].
    destruct (match_0 (Some start) (Plus digit)) eqn:H2;
      [| rewrite (match_0_throws_TypeError _ _ _ H2); reflexivity].
    reflexivity.
  - intros Hbad.
    destruct (existsb upper start) eqn:E1;
      [destruct (match_0_Plus_true upper start E1) as [w1 ->]
      | rewrite (match_0_Plus_false upper start E1); reflexivity].
    destruct (existsb digit start) eqn:E2;
      [destruct (match_0_Plus_true digit start E2) as [w2 ->]
      | rewrite (match_0_Plus_false digit start E2); reflexivity].
    destruct (existsb upper end_) eqn:E3;
      [destruct (match_0_Plus_true upper end_ E3) as [w3 ->]
      | rewrite (match_0_Plus_false upper end_ E3); reflexivity].
    destruct (existsb digit end_) eqn:E4;
      [discriminate Hbad
      | rewrite (match_0_Plus_false digit end_ E4); reflexivity].
Qed.

Lemma convertSheetToText_readable (sheet : sheet) (range : jsstring) :
  ref sheet = Some range -> range <> [] ->
  readable_ref range = true ->
  convertSheetToText sheet <> Throw TypeError.
Proof.
  intros Href Hne. unfold convertSheetToText, readable_ref. rewrite Href.
  destruct range as [|c range']; [congruence |].
  destruct (split 58%N (c :: range')) as [|start [|end_ pieces]];
    cbn [lookup list_lookup]; try discriminate.
  intros Hok. repeat (apply andb_true_iff in Hok; destruct Hok as [Hok ?]).
  destruct (match_0_Plus_true upper start) as [w1 ->]; [assumption |].
  destruct (match_0_Plus_true digit start) as [w2 ->]; [assumption |].
  destruct (match_0_Plus_true upper end_) as [w3 ->]; [assumption |].
  destruct (match_0_Plus_true digit end_) as [w4 ->]; [assumption |].
  discriminate.
Qed.

End SerializerEdges.

(** X3: on a sheet with a non-empty range text [convertSheetToText]
    throws a [TypeError] exactly when one of the first two pieces of
    the range text between colons lacks an uppercase letter or a digit
    (a range text without a second piece included). *)
Theorem convertSheetToText_TypeError_iff (sheet : sheet) (range : jsstring) :
  ref sheet = Some range -> range <> [] ->
  (convertSheetToText sheet = Throw TypeError <-> readable_ref range = false).
Proof.
  intros Href Hne. split.
  - intros Hthrow. destruct (readable_ref range) eqn:Hreadable;
      [| reflexivity].
    exfalso.
    exact (convertSheetToText_readable sheet range Href Hne Hreadable Hthrow).
  - apply convertSheetToText_unreadable; assumption.
Qed.

Lemma convertSheetToText_TypeError_iff_witness :
  convertSheetToText (Sheet (Some (js "a1:b2")) cells_A1_x) = Throw TypeError /\
  convertSheetToText (Sheet (Some (js "$A$1:$B$2")) cells_A1_x)
  <> Throw TypeError.
Proof.
  split.
  - apply (proj2 (convertSheetToText_TypeError_iff
                    (Sheet (Some (js "a1:b2")) cells_A1_x)
                    (js "a1:b2") eq_refl ltac:(discriminate))).
    vm_compute. reflexivity.
  - intros Hthrow.
    apply (proj1 (convertSheetToText_TypeError_iff
                    (Sheet (Some (js "$A$1:$B$2")) cells_A1_x)
                    (js "$A$1:$B$2") eq_refl ltac:(discriminate)))
      in Hthrow.
    vm_compute in Hthrow. discriminate Hthrow.
Defined.

(** X4: a range text without a colon, which is how the workbook reader
    writes the range of a sheet with a single cell, makes
    [convertSheetToText] throw a [TypeError], whatever the cells. *)
Theorem convertSheetToText_no_colon (sheet : sheet) (range : jsstring) :
  ref sheet = Some range -> range <> [] -> 58%N ∉ range ->
  convertSheetToText sheet = Throw TypeError.
Proof.
  intros Href Hne Hcolon.
  apply (convertSheetToText_unreadable sheet range Href Hne).
  unfold readable_ref. rewrite split_no_sep by exact Hcolon. reflexivity.
Qed.

Lemma convertSheetToText_no_colon_witness :
  convertSheetToText (Sheet (Some (encode_cell 1 1)) cells_A1_x)
  = Throw TypeError.
Proof.
  apply (convertSheetToText_no_colon _ (encode_cell 1 1));
    [reflexivity | vm_compute; discriminate |].
  apply encode_cell_no_colon; lia.
Defined.



(** Among distinct columns, one of which holds the only text of a row,
    the texts of the cells add up to that text. *)
Lemma concat_single_text (f : Z -> jsstring) (c : Z) (t : jsstring) :
  forall cols : list Z,
    NoDup cols -> c ∈ cols ->
    (forall col, col ∈ cols -> f col = if decide (col = c) then t else []) ->
    concat (f <$> cols) = t.
Proof.
  induction cols as [|col cols IH]; intros Hnodup Hin Hf.
  - inversion Hin.
  - apply NoDup_cons in Hnodup. destruct Hnodup as [Hnotin Hnodup].
    csimpl. rewrite (Hf col) by left.
    destruct (decide (col = c)) as [-> | Hne].
    + assert (Hrest : concat (f <$> cols) = []).
      { clear IH Hin. induction cols as [|col' cols IH']; [reflexivity |].
        csimpl. rewrite (Hf col') by (right; left).
        destruct (decide (col' = c)) as [-> | _];
          [exfalso; apply Hnotin; left |].
        apply IH'.
        - intros Hc. apply Hnotin. right. exact Hc.
        - apply NoDup_cons in Hnodup. apply Hnodup.
        - intros col Hcol. apply Hf.
          apply elem_of_cons in Hcol. destruct Hcol as [-> | Hcol];
            [left | right; right; exact Hcol]. }
      rewrite Hrest, app_nil_r. reflexivity.
    + apply elem_of_cons in Hin. destruct Hin as [-> | Hin]; [congruence |].
      simpl. apply IH; [exact Hnodup | exact Hin |].
      intros col' Hcol'. apply Hf. right. exact Hcol'.
Qed.

(** X6: the text does not tell in which column a value stands.  On a
    one-row range within the columns and rows of a worksheet whose
    only cell with a value is in column [col], the text is the string
    value of the cell, a tab and a newline, for every [col] of the
    range. *)
Theorem convertSheetToText_loses_column
    (startCol endCol row col : number) (value : cell_value) :
  1 <= startCol -> endCol <= MAX_COLUMN -> 0 <= row <= MAX_ROW ->
  startCol <= col <= endCol ->
  safe_value value ->
  convertSheetToText
    (Sheet (Some (encode_range startCol row endCol row))
           {[ encode_cell col row := Cell (Some value) ]})
  = Normal (Spec.string_value value ++ tab ++ newline).
Proof.
  intros Hstart _ [Hrow _] Hcol _.
  rewrite (convertSheetToText_encode_range _ startCol row endCol row)
    by (try reflexivity; lia).
  f_equal. unfold Spec.serialize.
  rewrite (seqZ_cons row) by lia. rewrite seqZ_nil by lia. csimpl.
  rewrite app_nil_r. unfold Spec.row_text.
  rewrite (concat_single_text _ col (Spec.string_value value ++ tab)).
  - rewrite <- app_assoc. reflexivity.
  - apply NoDup_seqZ.
  - apply elem_of_seqZ. lia.
  - intros col' Hcol'. apply elem_of_seqZ in Hcol'.
    unfold Spec.cell_text. cbn [cells].
    destruct (decide (col' = col)) as [-> | Hne].
    + rewrite lookup_singleton_eq. reflexivity.
    + rewrite lookup_singleton_ne; [reflexivity |].
      intros Heq. apply encode_cell_eq in Heq; [| lia ..].
      destruct Heq as [Heq _]. congruence.
Qed.

Lemma convertSheetToText_loses_column_witness :
  convertSheetToText
    (Sheet (Some (js "A1:C1")) {[ js "A1" := Cell (Some (VNumber 5)) ]})
  = Normal (js "5" ++ tab ++ newline) /\
  convertSheetToText
    (Sheet (Some (js "A1:C1")) {[ js "C1" := Cell (Some (VNumber 5)) ]})
  = Normal (js "5" ++ tab ++ newline).
Proof.
  split.
  - apply (convertSheetToText_loses_column 1 3 1 1 (VNumber 5));
      unfold safe_value, MAX_SAFE_INTEGER, MAX_COLUMN, MAX_ROW; lia.
  - apply (convertSheetToText_loses_column 1 3 1 3 (VNumber 5));
      unfold safe_value, MAX_SAFE_INTEGER, MAX_COLUMN, MAX_ROW; lia.
Defined.

Lemma count_newlines_app text1 text2 :
  count_newlines (text1 ++ text2) = (count_newlines text1 + count_newlines text2)%nat.
Proof. unfold count_newlines. rewrite filter_app, length_app. reflexivity. Qed.

Lemma count_newlines_none text : 10%N ∉ text -> count_newlines text = 0%nat.
Proof.
  unfold count_newlines. induction text as [|c text IH]; intros Hnotin.
  - reflexivity.
  - apply not_elem_of_cons in Hnotin. destruct Hnotin as [Hc Hnotin].
    rewrite filter_cons. destruct (decide (c = 10%N)); [congruence |].
    apply IH. exact Hnotin.
Qed.

Lemma count_newlines_concat {A} (f : A -> jsstring) (n : nat) (l : list A) :
  (forall x, x ∈ l -> count_newlines (f x) = n) ->
  count_newlines (concat (f <$> l)) = (length l * n)%nat.
Proof.
  induction l as [|x l IH]; intros Hf; csimpl; [reflexivity |].
  rewrite count_newlines_app, (Hf x) by left.
  rewrite IH; [reflexivity |]. intros y Hy. apply Hf. right. exact Hy.
Qed.

(** The text of a number or of a boolean holds no newline. *)
Lemma string_value_no_newline value :
  (forall s, value = VString s -> 10%N ∉ s) ->
  10%N ∉ Spec.string_value value.
Proof.
  intros Hstring. destruct value as [s|n|b].
  - apply Hstring. reflexivity.
  - simpl. rewrite <- number_to_string_numeral.
    assert (Hdigits : forall m, 0 <= m -> 10%N ∉ decimal_digits m []).
    { intros m Hm Hin.
      destruct (decimal_digits_spec m Hm []) as (ds & Heq & _ & Hds & _).
      rewrite Heq, app_nil_r in Hin. rewrite Forall_forall in Hds.
      apply Hds in Hin. vm_compute in Hin. discriminate Hin. }
    unfold number_to_string. destruct (decide (n < 0)).
    + intros Hin. apply elem_of_cons in Hin. destruct Hin as [Hin | Hin];
        [discriminate Hin | exact (Hdigits (- n) ltac:(lia) Hin)].
    + apply Hdigits. lia.
  - intros Hin. destruct b; vm_compute in Hin;
      repeat (apply elem_of_cons in Hin; destruct Hin as [Hin | Hin];
              [discriminate Hin |]);
      inversion Hin.
Qed.

(** X7: when no text in a cell of the range holds a newline, the text
    of a sheet whose range lies within the columns and rows of a
    worksheet has exactly one newline per row of the range (none when
    the start row is after the end row). *)
Theorem convertSheetToText_newline_per_row
    (sheet : sheet) (startCol startRow endCol endRow : number) :
  1 <= startCol <= MAX_COLUMN -> 0 <= startRow <= MAX_ROW ->
  1 <= endCol <= MAX_COLUMN -> 0 <= endRow <= MAX_ROW ->
  ref sheet = Some (encode_range startCol startRow endCol endRow) ->
  (forall row col s,
     startRow <= row <= endRow -> startCol <= col <= endCol ->
     cells sheet !! encode_cell col row = Some (Cell (Some (VString s))) ->
     10%N ∉ s) ->
  exists text,
    convertSheetToText sheet = Normal text /\
    count_newlines text = Z.to_nat (endRow + 1 - startRow).
Proof.
  intros [Hc1 _] [Hr1 _] [Hc2 _] [Hr2 _] Href Hvalues.
  exists (Spec.serialize sheet startCol startRow endCol endRow).
  split; [apply convertSheetToText_encode_range; assumption |].
  unfold Spec.serialize.
  rewrite (count_newlines_concat _ 1%nat), length_seqZ; [lia |].
  intros row Hrow. apply elem_of_seqZ in Hrow.
  unfold Spec.row_text. rewrite count_newlines_app.
  rewrite (count_newlines_concat _ 0%nat); [rewrite Nat.mul_0_r; reflexivity |].
  intros col Hcol. apply elem_of_seqZ in Hcol.
  unfold Spec.cell_text.
  destruct (cells sheet !! encode_cell col row) as [[[value|]]|] eqn:Hcell;
    try reflexivity.
  apply count_newlines_none. intros Hin. apply elem_of_app in Hin.
  destruct Hin as [Hin | Hin].
  - revert Hin. apply string_value_no_newline. intros s ->.
    exact (Hvalues row col s ltac:(lia) ltac:(lia) Hcell).
  - apply list_elem_of_singleton in Hin. discriminate Hin.
Qed.

Lemma convertSheetToText_newline_per_row_witness :
  exists text,
    convertSheetToText (Sheet (Some (js "A1:B2")) cells_A1_x_B2_7)
    = Normal text /\
    count_newlines text = 2%nat.
Proof.
  apply (convertSheetToText_newline_per_row
           (Sheet (Some (js "A1:B2")) cells_A1_x_B2_7) 1 1 2 2);
    try (unfold MAX_COLUMN, MAX_ROW; lia); try reflexivity.
  intros row col s Hrow Hcol.
  assert (Hrows : row = 1 \/ row = 2) by lia.
  assert (Hcols : col = 1 \/ col = 2) by lia.
  destruct Hrows as [-> | ->], Hcols as [-> | ->];
    vm_compute; intros [= <-]; intros Hin;
    repeat (apply elem_of_cons in Hin; destruct Hin as [Hin | Hin];
            [discriminate Hin |]);
    inversion Hin.
Defined.

(** * Further properties of [parseGroqResponse] *)

Section Fences.

(** The continuation of the lazy group of [fence_tail]: white space
    and the closing fence. *)
Lemma star_greedy_closing_fails {R} (k : jsstring -> option R) body rest :
  last (space <$> body) = Some false -> 96%N ∉ body ->
  star_greedy space
    (fun s => match strip_prefix (js "```") s with
              | Some s' => k s'
              | None => None
              end) (body ++ rest) = None.
Proof.
  induction body as [|c body IH]; intros Hlast Hbody; [discriminate Hlast |].
  apply not_elem_of_cons in Hbody. destruct Hbody as [Hc Hbody].
  assert (Hhere : match strip_prefix (js "```") ((c :: body) ++ rest) with
                  | Some s' => k s'
                  | None => None
                  end = None).
  { change (js "```") with [96; 96; 96]%N. cbn [app strip_prefix].
    destruct (decide (96%N = c)); [congruence | reflexivity]. }
  cbn [app star_greedy]. cbn [app] in Hhere.
  destruct (space c) eqn:Hspace; [| exact Hhere].
  destruct body as [|c' body'].
  - simpl in Hlast. congruence.
  - rewrite IH; [exact Hhere | | exact Hbody].
    exact Hlast.
Qed.

(** The lazy group grows over a body without backticks that does not
    end in white space, up to the white space before the closing
    fence. *)
Lemma run_fence_tail_body {R} (k : jsstring -> list jsstring -> option R)
    caps body blank after :
  last (space <$> body) = Some false -> 96%N ∉ body ->
  Forall (fun c => space c = true) blank ->
  is_Some (k after (caps ++ [body])) ->
  run fence_tail (body ++ blank ++ js "```" ++ after) caps k
  = k after (caps ++ [body]).
Proof.
  intros Hlast Hbody Hblank [r Hr]. unfold fence_tail. cbn [run].
  set (text := body ++ blank ++ js "```" ++ after).
  assert (Hgrow : forall done todo,
            body = done ++ todo ->
            star_lazy any
              (fun s' => star_greedy space
                 (fun s'' => match strip_prefix (js "```") s'' with
                             | Some s3 =>
                                 k s3 (caps ++ [take (length text - length s') text])
                             | None => None
                             end) s')
              (todo ++ blank ++ js "```" ++ after) = Some r).
  { intros done todo. revert done.
    induction todo as [|c todo IH]; intros done Hsplit.
    - rewrite app_nil_r in Hsplit. subst done. apply star_lazy_stop.
      cbn [app].
      rewrite star_greedy_run;
        [| exact Hblank | vm_compute; discriminate |];
        rewrite strip_prefix_app;
        replace (take _ text) with body; eauto;
        unfold text; rewrite take_app_length'; [reflexivity | | reflexivity |];
        rewrite length_app; lia.
    - cbn [app star_lazy].
      rewrite (star_greedy_closing_fails _ (c :: todo)
                 (blank ++ js "```" ++ after)).
      + replace (any c) with true
          by (unfold any; destruct (space c); reflexivity).
        apply (IH (done ++ [c])). rewrite <- app_assoc. exact Hsplit.
      + rewrite Hsplit, fmap_app in Hlast.
        rewrite last_app in Hlast.
        destruct (last (space <$> c :: todo)) eqn:E; [exact Hlast |].
        apply last_None in E. discriminate E.
      + intros Hin. apply Hbody. rewrite Hsplit.
        apply elem_of_app. right. exact Hin. }
  rewrite Hr. apply (Hgrow [] body). reflexivity.
Qed.

(** A fence pattern does not match before the first backtick. *)
Lemma exec_skip_no_backtick opening r before s :
  96%N ∉ before ->
  exec (Seq (Chars (96%N :: opening)) r) (before ++ s)
  = exec (Seq (Chars (96%N :: opening)) r) s.
Proof.
  induction before as [|c before IH]; intros Hbefore; [reflexivity |].
  apply not_elem_of_cons in Hbefore. destruct Hbefore as [Hc Hbefore].
  cbn [app exec run strip_prefix].
  destruct (decide (96%N = c)); [congruence |]. apply IH. exact Hbefore.
Qed.

(** An opening fence, white space, a body, white space and a closing
    fence: the pattern matches there and its group is the body. *)
Lemma exec_fence_body opening blank1 body blank2 after :
  Forall (fun c => space c = true) blank1 ->
  Forall (fun c => space c = true) blank2 ->
  head (space <$> body) = Some false ->
  last (space <$> body) = Some false -> 96%N ∉ body ->
  exec (Seq (Chars opening) (Seq (Star true space) fence_tail))
    (opening ++ blank1 ++ body ++ blank2 ++ js "```" ++ after)
  = Some [opening ++ blank1 ++ body ++ blank2 ++ js "```"; body].
Proof.
  intros Hblank1 Hblank2 Hhead Hlast Hbody.
  set (text := opening ++ blank1 ++ body ++ blank2 ++ js "```" ++ after).
  apply exec_here. cbn [run]. unfold text at 1.
  rewrite strip_prefix_app.
  assert (Htail : forall k : jsstring -> list jsstring -> option (list jsstring),
            is_Some (k after [body]) ->
            run fence_tail (body ++ blank2 ++ js "```" ++ after) [] k
            = k after [body]).
  { intros k Hk. apply (run_fence_tail_body k []); assumption. }
  rewrite star_greedy_run; [| exact Hblank1 | |].
  - rewrite Htail by eauto. do 2 f_equal.
    unfold text. rewrite !app_assoc.
    apply take_app_length'. rewrite !length_app. lia.
  - destruct body as [|c body']; [discriminate Hhead |].
    simpl in *. congruence.
  - rewrite Htail by eauto. eauto.
Qed.

Lemma exec_json_fence_None response :
  includes (js "```json") response = false ->
  exec json_fence response = None.
Proof.
  unfold json_fence.
  induction response as [|c response IH]; cbn [includes exec run];
    destruct (strip_prefix (js "```json") _); try discriminate; auto.
Qed.

End Fences.

(** A code unit is not in a given text. *)
Ltac not_in_text :=
  vm_compute;
  let Hin := fresh "Hin" in
  intros Hin;
  repeat (apply elem_of_cons in Hin; destruct Hin as [Hin | Hin];
          [discriminate Hin |]);
  inversion Hin.

(** X8: a [```json] fence is unwrapped.  When the response has no
    backtick before the fence and the body between the fences has no
    backtick and neither starts nor ends with white space, the
    candidate is the body, whatever white space surrounds it inside the
    fence and whatever text follows the closing fence; the call returns
    what [JSON.parse] makes of the body and throws when it rejects it. *)
Theorem parseGroqResponse_unwraps_json_fence
    (before blank1 body blank2 after : jsstring) :
  96%N ∉ before ->
  Forall (fun c => space c = true) blank1 ->
  Forall (fun c => space c = true) blank2 ->
  head (space <$> body) = Some false ->
  last (space <$> body) = Some false -> 96%N ∉ body ->
  jsonString
    (before ++ js "```json" ++ blank1 ++ body ++ blank2 ++ js "```" ++ after)
  = body /\
  parseGroqResponse
    (before ++ js "```json" ++ blank1 ++ body ++ blank2 ++ js "```" ++ after)
  = match JSON.parse body with
    | Normal value => Normal value
    | Throw _ => Throw Invalid_response_format
    end.
Proof.
  intros Hbefore Hblank1 Hblank2 Hhead Hlast Hbody.
  set (response := before ++ _).
  assert (Hexec : exec json_fence response
                  = Some [js "```json" ++ blank1 ++ body ++ blank2 ++ js "```";
                          body]).
  { unfold response, json_fence.
    change (js "```json") with (96%N :: js "``json").
    rewrite exec_skip_no_backtick by exact Hbefore.
    apply (exec_fence_body (96%N :: js "``json")); assumption. }
  assert (Hcandidate : jsonString response = body).
  { rewrite (jsonString_json_fence _ _ _ Hexec).
    destruct (decide (body = [])) as [-> | _]; [discriminate Hhead | reflexivity]. }
  rewrite parseGroqResponse_parse, Hcandidate. auto.
Qed.

Lemma parseGroqResponse_unwraps_json_fence_witness :
  parseGroqResponse
    (js "Here you go:" ++ newline ++ js "```json" ++ newline ++ object_a_1
     ++ newline ++ js "```" ++ js " Anything else?")
  = Normal value_a_1.
Proof.
  destruct (parseGroqResponse_unwraps_json_fence
              (js "Here you go:" ++ newline) newline object_a_1 newline
              (js " Anything else?")) as [_ H];
    [not_in_text | repeat constructor | repeat constructor
    | vm_compute; reflexivity | vm_compute; reflexivity | not_in_text |].
  etransitivity; [exact H | vm_compute; reflexivity].
Defined.

(** X9: a plain fence is unwrapped when the response has no [```json]
    fence.  Under the conditions of X8 on the text before the fence and
    on the body, the candidate is the body between the plain fences. *)
Theorem parseGroqResponse_unwraps_plain_fence
    (before blank1 body blank2 after : jsstring) :
  includes (js "```json")
    (before ++ js "```" ++ blank1 ++ body ++ blank2 ++ js "```" ++ after)
  = false ->
  96%N ∉ before ->
  Forall (fun c => space c = true) blank1 ->
  Forall (fun c => space c = true) blank2 ->
  head (space <$> body) = Some false ->
  last (space <$> body) = Some false -> 96%N ∉ body ->
  jsonString
    (before ++ js "```" ++ blank1 ++ body ++ blank2 ++ js "```" ++ after)
  = body /\
  parseGroqResponse
    (before ++ js "```" ++ blank1 ++ body ++ blank2 ++ js "```" ++ after)
  = match JSON.parse body with
    | Normal value => Normal value
    | Throw _ => Throw Invalid_response_format
    end.
Proof.
  intros Hjson Hbefore Hblank1 Hblank2 Hhead Hlast Hbody.
  set (response := before ++ _) in *.
  assert (Hexec : exec plain_fence response
                  = Some [js "```" ++ blank1 ++ body ++ blank2 ++ js "```";
                          body]).
  { unfold response, plain_fence.
    change (js "```") with (96%N :: js "``") at 1 2.
    rewrite exec_skip_no_backtick by exact Hbefore.
    apply (exec_fence_body (96%N :: js "``")); assumption. }
  assert (Hcandidate : jsonString response = body).
  { rewrite (jsonString_plain_fence _ _ _ (exec_json_fence_None _ Hjson) Hexec).
    destruct (decide (body = [])) as [-> | _]; [discriminate Hhead | reflexivity]. }
  rewrite parseGroqResponse_parse, Hcandidate. auto.
Qed.

Lemma parseGroqResponse_unwraps_plain_fence_witness :
  parseGroqResponse (js "```" ++ newline ++ js "[1, 2]" ++ newline ++ js "```")
  = Normal (JSON.JArray [JSON.JNumber 1 0; JSON.JNumber 2 0]).
Proof.
  destruct (parseGroqResponse_unwraps_plain_fence
              [] newline (js "[1, 2]") newline []) as [_ H];
    [vm_compute; reflexivity | not_in_text | repeat constructor
    | repeat constructor | vm_compute; reflexivity | vm_compute; reflexivity
    | not_in_text |].
  etransitivity; [exact H | vm_compute; reflexivity].
Defined.

(** * Properties of [convertWorkbookToText] *)

Section Workbook.

Variable Sheets : gmap (list N) sheet.

Lemma convertWorkbookToText_forEach_Normal sheetNames :
  forall text,
    (forall sheetName sheet,
       sheetName ∈ sheetNames -> Sheets !! sheetName = Some sheet ->
       ~ fails (convertSheetToText sheet)) ->
    convertWorkbookToText_forEach Sheets sheetNames text
    = Normal (text ++ concat (sheet_section Sheets <$> sheetNames)).
Proof.
  induction sheetNames as [|sheetName rest IH]; intros text Hsheets;
    cbn [convertWorkbookToText_forEach fmap list_fmap concat].
  - rewrite app_nil_r. reflexivity.
  - unfold sheet_section at 1.
    destruct (Sheets !! sheetName) as [sheet|] eqn:Hsheet.
    + destruct (convertSheetToText sheet) as [sheetText|e] eqn:Htext.
      * cbn [mbind completion_bind]. rewrite IH.
        -- rewrite <- !app_assoc. reflexivity.
        -- intros name sh Hin. apply Hsheets. right. exact Hin.
      * exfalso. apply (Hsheets sheetName sheet); [left | exact Hsheet |].
        exists e. exact Htext.
    + cbn [mbind completion_bind]. rewrite IH.
      * rewrite app_nil_r, <- !app_assoc. reflexivity.
      * intros name sh Hin. apply Hsheets. right. exact Hin.
Qed.

Lemma convertWorkbookToText_forEach_Throw sheetNames :
  forall text sheetName sheet,
    sheetName ∈ sheetNames -> Sheets !! sheetName = Some sheet ->
    fails (convertSheetToText sheet) ->
    convertWorkbookToText_forEach Sheets sheetNames text = Throw TypeError.
Proof.
  induction sheetNames as [|name rest IH]; intros text sheetName sheet Hin Hsheet Hfails.
  - inversion Hin.
  - cbn [convertWorkbookToText_forEach].
    destruct (Sheets !! name) as [sheet'|] eqn:Hsheet'.
    + destruct (convertSheetToText sheet') as [sheetText|e] eqn:Htext.
      * cbn [mbind completion_bind]. apply elem_of_cons in Hin. destruct Hin as [-> | Hin].
        -- rewrite Hsheet in Hsheet'. injection Hsheet' as <-.
           destruct Hfails as [e He]. congruence.
        -- exact (IH _ _ _ Hin Hsheet Hfails).
      * cbn [mbind completion_bind].
        rewrite (convertSheetToText_throws_only_TypeError _ _ Htext).
        reflexivity.
    + cbn [mbind completion_bind]. apply elem_of_cons in Hin. destruct Hin as [-> | Hin].
      * congruence.
      * exact (IH _ _ _ Hin Hsheet Hfails).
Qed.

End Workbook.

(** X10: the workbook text is the count line followed, for each sheet
    name in the order of [SheetNames], by a heading and the text of the
    sheet of that name; a name without a sheet gets its heading only,
    and a workbook with an empty list of names still gets the count
    line.  This holds when every named sheet that is there can be
    serialized. *)
Theorem convertWorkbookToText_sections
    (workbookData : workbook) (sheetNames : list jsstring) :
  SheetNames workbookData = Some sheetNames ->
  (forall sheetName sheet,
     sheetName ∈ sheetNames ->
     Sheets workbookData !! sheetName = Some sheet ->
     ~ fails (convertSheetToText sheet)) ->
  convertWorkbookToText workbookData
  = Normal (js "Workbook contains "
            ++ number_to_string (Z.of_nat (length sheetNames))
            ++ js " sheets:" ++ newline
            ++ concat (sheet_section (Sheets workbookData) <$> sheetNames)).
Proof.
  intros Hnames Hsheets. unfold convertWorkbookToText. rewrite Hnames.
  rewrite convertWorkbookToText_forEach_Normal by exact Hsheets.
  cbn [app]. rewrite <- !app_assoc. reflexivity.
Qed.

Lemma convertWorkbookToText_sections_witness :
  convertWorkbookToText
    (Workbook (Some [js "S1"; js "S2"])
              {[ js "S1" := Sheet (Some (js "A1:B2")) cells_A1_x ]})
  = Normal (js "Workbook contains 2 sheets:" ++ newline
            ++ newline ++ js "Sheet: S1" ++ newline
            ++ js "x" ++ tab ++ newline ++ newline
            ++ newline ++ js "Sheet: S2" ++ newline).
Proof.
  etransitivity.
  - apply (convertWorkbookToText_sections _ [js "S1"; js "S2"]);
      [reflexivity |].
    intros sheetName sheet Hin Hsheet [e He].
    apply elem_of_cons in Hin. destruct Hin as [-> | Hin].
    + vm_compute in Hsheet. injection Hsheet as <-.
      vm_compute in He. discriminate He.
    + apply elem_of_cons in Hin. destruct Hin as [-> | Hin];
        [vm_compute in Hsheet; discriminate Hsheet | inversion Hin].
  - vm_compute. reflexivity.
Defined.

(** X11: one sheet that cannot be serialized fails the whole workbook:
    [convertWorkbookToText] throws a [TypeError] exactly when the
    workbook has, under one of its sheet names, a sheet on which
    [convertSheetToText] fails; it throws nothing else. *)
Theorem convertWorkbookToText_TypeError_iff
    (workbookData : workbook) (sheetNames : list jsstring) :
  SheetNames workbookData = Some sheetNames ->
  (convertWorkbookToText workbookData = Throw TypeError <->
   exists sheetName sheet,
     sheetName ∈ sheetNames /\
     Sheets workbookData !! sheetName = Some sheet /\
     fails (convertSheetToText sheet)) /\
  (forall e, convertWorkbookToText workbookData = Throw e -> e = TypeError).
Proof.
  intros Hnames. unfold convertWorkbookToText. rewrite Hnames.
  set (text := _ ++ _).
  assert (Hcases :
    (exists sheetName sheet,
       sheetName ∈ sheetNames /\
       Sheets workbookData !! sheetName = Some sheet /\
       fails (convertSheetToText sheet)) \/
    (forall sheetName sheet,
       sheetName ∈ sheetNames ->
       Sheets workbookData !! sheetName = Some sheet ->
       ~ fails (convertSheetToText sheet))).
  { clear. induction sheetNames as [|name rest [Hbad | Hgood]].
    - right. intros sheetName sheet Hin. inversion Hin.
    - left. destruct Hbad as (sheetName & sheet & Hin & Hrest).
      exists sheetName, sheet. split; [right; exact Hin | exact Hrest].
    - destruct (Sheets workbookData !! name) as [sheet|] eqn:Hsheet.
      + destruct (convertSheetToText sheet) as [t|e] eqn:Htext.
        * right. intros sheetName sheet' Hin Hsheet'.
          apply elem_of_cons in Hin. destruct Hin as [-> | Hin];
            [| exact (Hgood _ _ Hin Hsheet')].
          rewrite Hsheet in Hsheet'. injection Hsheet' as <-.
          intros [e He]. congruence.
        * left. exists name, sheet.
          split; [left | split; [exact Hsheet | exists e; exact Htext]].
      + right. intros sheetName sheet' Hin Hsheet'.
        apply elem_of_cons in Hin. destruct Hin as [-> | Hin];
          [congruence | exact (Hgood _ _ Hin Hsheet')]. }
  destruct Hcases as [Hbad | Hgood].
  - destruct Hbad as (sheetName & sheet & Hin & Hsheet & Hfails).
    rewrite (convertWorkbookToText_forEach_Throw _ _ _ _ _ Hin Hsheet Hfails).
    split; [| intros e [= <-]; reflexivity].
    split; [intros _; eauto 6 | reflexivity].
  - rewrite convertWorkbookToText_forEach_Normal by exact Hgood.
    split; [| discriminate].
    split; [discriminate |].
    intros (sheetName & sheet & Hin & Hsheet & Hfails).
    exfalso. exact (Hgood _ _ Hin Hsheet Hfails).
Qed.

Lemma convertWorkbookToText_TypeError_iff_witness :
  convertWorkbookToText
    (Workbook (Some [js "S1"; js "S2"])
              {[ js "S2" := Sheet (Some (js "A1")) cells_A1_x ]})
  = Throw TypeError.
Proof.
  apply (proj1 (convertWorkbookToText_TypeError_iff
                  (Workbook (Some [js "S1"; js "S2"])
                     {[ js "S2" := Sheet (Some (js "A1")) cells_A1_x ]})
                  [js "S1"; js "S2"] eq_refl)).
  exists (js "S2"), (Sheet (Some (js "A1")) cells_A1_x).
  split; [right; left |].
  split; [vm_compute; reflexivity |].
  exists TypeError. vm_compute. reflexivity.
Defined.

(** * Properties of [parseQueryResponse] *)

Section Queries.
Import JSON.

Variable now : nat -> number.

Lemma parseQueryResponse_callback_null readings index :
  parseQueryResponse_callback now readings JNull index = Throw TypeError.
Proof. reflexivity. Qed.

Lemma parseQueryResponse_callback_built readings query index :
  query <> JNull ->
  exists object readings',
    parseQueryResponse_callback now readings query index
    = Normal (object, readings') /\
    built_from query index object.
Proof.
  intros Hquery. unfold parseQueryResponse_callback, built_from,
    has_truthy_id, property, generated_id.
  destruct query as [|b|m e|str|elements|members]; try congruence;
    cbn [get mbind completion_bind].
  1-4: eexists _, _; split; [reflexivity |]; cbn;
       repeat split; try discriminate; eauto.
  destruct (member (js "id") members) as [v|] eqn:Hid;
    [destruct (truthy v) eqn:Hv |];
    eexists _, _; (split; [reflexivity |]); cbn;
    repeat split; try discriminate; eauto.
Qed.

Lemma parseQueryResponse_map_built :
  forall elements readings index,
    JNull ∉ elements ->
    exists objects,
      parseQueryResponse_map now readings elements index = Normal objects /\
      length objects = length elements /\
      forall k element,
        elements !! k = Some element ->
        exists object,
          objects !! k = Some object /\
          built_from element (index + k) object.
Proof.
  induction elements as [|query rest IH]; intros readings index Hnull.
  - exists []. repeat split. intros k element Hk. discriminate Hk.
  - apply not_elem_of_cons in Hnull. destruct Hnull as [Hquery Hnull].
    destruct (parseQueryResponse_callback_built readings query index)
      as (object & readings' & Hcall & Hbuilt); [congruence |].
    destruct (IH readings' (S index) Hnull) as (objects & Hmap & Hlen & Hrest).
    exists (object :: objects).
    cbn [parseQueryResponse_map]. rewrite Hcall.
    cbn [mbind completion_bind]. rewrite Hmap. cbn [mbind completion_bind].
    split; [reflexivity |]. split; [simpl; lia |].
    intros [|k] element Hk; simpl in Hk.
    + injection Hk as <-. exists object.
      rewrite Nat.add_0_r. auto.
    + destruct (Hrest k element Hk) as (o & Ho & Hb).
      exists o. replace (index + S k)%nat with (S index + k)%nat by lia. auto.
Qed.

Lemma parseQueryResponse_map_null :
  forall elements readings index,
    JNull ∈ elements ->
    exists e, parseQueryResponse_map now readings elements index = Throw e.
Proof.
  induction elements as [|query rest IH]; intros readings index Hnull.
  - inversion Hnull.
  - cbn [parseQueryResponse_map].
    assert (Hcases : query = JNull \/ query <> JNull)
      by (destruct query; [left; reflexivity | right; discriminate ..]).
    destruct Hcases as [-> | Hquery].
    + rewrite parseQueryResponse_callback_null. eauto.
    + destruct (parseQueryResponse_callback_built readings query index Hquery)
        as (object & readings' & Hcall & _).
      rewrite Hcall. cbn [mbind completion_bind].
      apply elem_of_cons in Hnull. destruct Hnull as [Hnull | Hnull];
        [congruence |].
      destruct (IH readings' (S index) Hnull) as [e He].
      rewrite He. eauto.
Qed.

Lemma null_element_cases (elements : list value) :
  JNull ∈ elements \/ JNull ∉ elements.
Proof.
  induction elements as [|query rest [Hin | Hnotin]].
  - right. intros Hin. inversion Hin.
  - left. right. exact Hin.
  - destruct query; try (left; left; fail);
      right; intros Hin; apply elem_of_cons in Hin;
      destruct Hin as [Hin | Hin]; try discriminate Hin; exact (Hnotin Hin).
Qed.

(** What a returned list of queries tells of the response. *)
Lemma parseQueryResponse_Normal_inv response queries :
  parseQueryResponse now response = Normal queries ->
  exists elements,
    parse (jsonString response) = Normal (JArray elements) /\
    (JNull ∉ elements) /\
    length queries = length elements /\
    forall k element,
      elements !! k = Some element ->
      exists object, queries !! k = Some object /\ built_from element k object.
Proof.
  unfold parseQueryResponse.
  destruct (parse (jsonString response)) as [value|e0];
    cbn [mbind completion_bind try_catch]; [| discriminate].
  destruct value as [|b|m e|str|elements|members];
    cbn [try_catch]; try discriminate.
  destruct (null_element_cases elements) as [Hnull | Hnull].
  - destruct (parseQueryResponse_map_null elements 0 0 Hnull) as [e He].
    rewrite He. discriminate.
  - destruct (parseQueryResponse_map_built elements 0 0 Hnull)
      as (objects & Hmap & Hlen & Hbuilt).
    rewrite Hmap. cbn [try_catch]. intros [= <-].
    exists elements. auto.
Qed.

Lemma built_from_truthy element k object :
  built_from element k object ->
  truthy (query_id object) = true /\ truthy (query_category object) = true.
Proof.
  intros (Hkept & Hmade & _ & _ & Hcategory). split.
  - destruct (has_truthy_id element) eqn:Hid.
    + specialize (Hkept eq_refl). unfold has_truthy_id, property in *.
      destruct (get element (js "id")) as [[v|]|]; try discriminate.
      injection Hkept as ->. exact Hid.
    + destruct (Hmade eq_refl) as [time ->]. reflexivity.
  - rewrite Hcategory. unfold or_else.
    destruct (property element (js "category")) as [v|]; [| reflexivity].
    destruct (truthy v) eqn:Hv; [exact Hv | reflexivity].
Qed.

Lemma built_objects_truthy (elements : list value)
    (queries : list query_object) :
  length queries = length elements ->
  (forall k element,
     elements !! k = Some element ->
     exists object, queries !! k = Some object /\ built_from element k object) ->
  Forall (fun object =>
            truthy (query_id object) = true /\
            truthy (query_category object) = true) queries.
Proof.
  intros Hlen Hbuilt. apply Forall_lookup. intros k object Hk.
  destruct (lookup_lt_is_Some_2 elements k) as [element Helement].
  { rewrite <- Hlen. apply lookup_lt_is_Some. eauto. }
  destruct (Hbuilt k element Helement) as (object' & Hk' & Hfrom).
  rewrite Hk in Hk'. injection Hk' as <-.
  exact (built_from_truthy _ _ _ Hfrom).
Qed.

(** [parseTestScenarioResponse] differs from [parseGroqResponse] in
    the message of its error only. *)
Lemma parseTestScenarioResponse_Normal response value :
  parseTestScenarioResponse response = Normal value <->
  parseGroqResponse response = Normal value.
Proof.
  unfold parseTestScenarioResponse, parseGroqResponse.
  destruct (parse (jsonString response)); cbn [try_catch];
    split; intros H; try discriminate H; exact H.
Qed.

End Queries.

(** X12: [parseQueryResponse] returns exactly when the candidate
    parses to an array none of whose elements is [null]; in every
    other case (no JSON, a value that is not an array, a [null]
    element) it throws the [Error] 'Invalid query response format'. *)
Theorem parseQueryResponse_returns_iff (now : nat -> number) (response : jsstring) :
  ((exists queries, parseQueryResponse now response = Normal queries) <->
   exists elements,
     JSON.parse (jsonString response) = Normal (JSON.JArray elements) /\
     JSON.JNull ∉ elements) /\
  (forall e, parseQueryResponse now response = Throw e ->
             e = Invalid_query_response_format).
Proof.
  unfold parseQueryResponse.
  destruct (JSON.parse (jsonString response)) as [value|e0] eqn:Hparse;
    cbn [mbind completion_bind try_catch].
  - destruct value as [|b|m e|str|elements|members];
      cbn [try_catch];
      try (split; [split; [intros [q Hq]; discriminate Hq
                          | intros (elements & Hel & _); discriminate Hel]
                  | intros e' [= <-]; reflexivity]).
    destruct (null_element_cases elements) as [Hnull | Hnull].
    + destruct (parseQueryResponse_map_null now elements 0 0 Hnull) as [e He].
      rewrite He. cbn [try_catch].
      split; [| intros e' [= <-]; reflexivity].
      split; [intros [q Hq]; discriminate Hq |].
      intros (elements' & [= <-] & Hnotin). contradiction.
    + destruct (parseQueryResponse_map_built now elements 0 0 Hnull)
        as (objects & Hmap & _).
      rewrite Hmap. cbn [try_catch].
      split; [| discriminate]. split; eauto.
  - split; [| intros e' [= <-]; reflexivity].
    split; [intros [q Hq]; discriminate Hq |].
    intros (elements & Hel & _). discriminate Hel.
Qed.

(** X13: the returned queries are the elements of the array, one for
    one and in order; each keeps the element's [query] and
    [description], keeps its [id] and its [category] when they are
    truthy, and gets a made-up [id] and the category ["SELECT"]
    otherwise. *)
Theorem parseQueryResponse_objects
    (now : nat -> number) (response : jsstring)
    (elements : list JSON.value) (queries : list query_object) :
  JSON.parse (jsonString response) = Normal (JSON.JArray elements) ->
  parseQueryResponse now response = Normal queries ->
  length queries = length elements /\
  forall k element,
    elements !! k = Some element ->
    exists object, queries !! k = Some object /\ built_from element k object.
Proof.
  intros Hparse Hqueries.
  destruct (parseQueryResponse_Normal_inv now response queries Hqueries)
    as (elements' & Hparse' & _ & Hlen & Hbuilt).
  rewrite Hparse in Hparse'. injection Hparse' as <-.
  split; [exact Hlen | exact Hbuilt].
Qed.

Lemma parseQueryResponse_objects_witness :
  parseQueryResponse example_clock queries_reply = Normal queries_reply_objects /\
  length queries_reply_objects = length queries_reply_elements /\
  forall k element,
    queries_reply_elements !! k = Some element ->
    exists object,
      queries_reply_objects !! k = Some object /\ built_from element k object.
Proof.
  assert (Hqueries : parseQueryResponse example_clock queries_reply
                     = Normal queries_reply_objects)
    by (vm_compute; reflexivity).
  split; [exact Hqueries |].
  apply (parseQueryResponse_objects example_clock queries_reply);
    [vm_compute; reflexivity | exact Hqueries].
Defined.

(** X14: every query [parseQueryResponse] returns has a truthy [id]
    and a truthy [category]. *)
Theorem parseQueryResponse_truthy_id_category
    (now : nat -> number) (response : jsstring) (queries : list query_object) :
  parseQueryResponse now response = Normal queries ->
  Forall (fun object =>
            JSON.truthy (query_id object) = true /\
            JSON.truthy (query_category object) = true) queries.
Proof.
  intros Hqueries.
  destruct (parseQueryResponse_Normal_inv now response queries Hqueries)
    as (elements & _ & _ & Hlen & Hbuilt).
  exact (built_objects_truthy elements queries Hlen Hbuilt).
Qed.

Lemma parseQueryResponse_truthy_id_category_witness :
  Forall (fun object =>
            JSON.truthy (query_id object) = true /\
            JSON.truthy (query_category object) = true)
         queries_reply_objects.
Proof.
  apply (parseQueryResponse_truthy_id_category example_clock queries_reply).
  vm_compute. reflexivity.
Defined.

Section GeneratedIds.

Lemma number_to_string_no_underscore time : 95%N ∉ number_to_string time.
Proof.
  assert (Hdigits : forall n, 0 <= n -> 95%N ∉ decimal_digits n []).
  { intros n Hn Hin.
    destruct (decimal_digits_spec n Hn []) as (ds & Heq & _ & Hds & _).
    rewrite Heq, app_nil_r in Hin. rewrite Forall_forall in Hds.
    apply Hds in Hin. vm_compute in Hin. discriminate Hin. }
  unfold number_to_string. destruct (decide (time < 0)).
  - intros Hin. apply elem_of_cons in Hin. destruct Hin as [Hin | Hin];
      [discriminate Hin | exact (Hdigits (- time) ltac:(lia) Hin)].
  - apply Hdigits. lia.
Qed.

Lemma app_separator_inj (sep : N) (x1 y1 x2 y2 : jsstring) :
  sep ∉ x1 -> sep ∉ x2 ->
  x1 ++ sep :: y1 = x2 ++ sep :: y2 -> x1 = x2 /\ y1 = y2.
Proof.
  revert x2. induction x1 as [|a x1 IH]; intros [|b x2] H1 H2 Heq;
    simpl in Heq.
  - injection Heq as <-. auto.
  - injection Heq as <- _. exfalso. apply H2. left.
  - injection Heq as -> _. exfalso. apply H1. left.
  - injection Heq as <- Heq.
    apply not_elem_of_cons in H1, H2.
    destruct (IH x2 (proj2 H1) (proj2 H2) Heq) as [-> ->]. auto.
Qed.

Lemma generated_id_inj time1 time2 index1 index2 :
  generated_id time1 index1 = generated_id time2 index2 -> index1 = index2.
Proof.
  unfold generated_id. intros [= Heq].
  apply (app_separator_inj 95%N) in Heq;
    [| apply number_to_string_no_underscore ..].
  destruct Heq as [_ Hindex].
  destruct (number_to_string_spec (Z.of_nat index1) ltac:(lia)) as (_ & _ & H1).
  destruct (number_to_string_spec (Z.of_nat index2) ltac:(lia)) as (_ & _ & H2).
  rewrite Hindex in H1. lia.
Qed.

End GeneratedIds.

(** X15: the identifiers [parseQueryResponse] makes up in one call are
    different from one another: two queries at different positions
    whose elements had no truthy [id] have different [id]s, whatever
    the clock says. *)
Theorem parseQueryResponse_generated_ids_differ
    (now : nat -> number) (response : jsstring)
    (elements : list JSON.value) (queries : list query_object)
    (i j : nat) (element_i element_j : JSON.value)
    (object_i object_j : query_object) :
  JSON.parse (jsonString response) = Normal (JSON.JArray elements) ->
  parseQueryResponse now response = Normal queries ->
  i <> j ->
  elements !! i = Some element_i -> elements !! j = Some element_j ->
  has_truthy_id element_i = false -> has_truthy_id element_j = false ->
  queries !! i = Some object_i -> queries !! j = Some object_j ->
  query_id object_i <> query_id object_j.
Proof.
  intros Hparse Hqueries Hij Hei Hej Hidi Hidj Hoi Hoj Heq.
  destruct (parseQueryResponse_Normal_inv now response queries Hqueries)
    as (elements' & Hparse' & _ & _ & Hbuilt).
  rewrite Hparse in Hparse'. injection Hparse' as <-.
  destruct (Hbuilt i element_i Hei) as (oi & Hoi' & _ & Hmade_i & _).
  destruct (Hbuilt j element_j Hej) as (oj & Hoj' & _ & Hmade_j & _).
  rewrite Hoi in Hoi'. injection Hoi' as <-.
  rewrite Hoj in Hoj'. injection Hoj' as <-.
  destruct (Hmade_i Hidi) as [ti Hi]. destruct (Hmade_j Hidj) as [tj Hj].
  rewrite Hi, Hj in Heq. apply generated_id_inj in Heq. contradiction.
Qed.

Lemma parseQueryResponse_generated_ids_differ_witness :
  JSON.JString (js "query_1001_1") <> JSON.JString (js "query_1003_2").
Proof.
  apply (parseQueryResponse_generated_ids_differ
           example_clock queries_reply queries_reply_elements
           queries_reply_objects 1 2
           (JSON.JObject [(js "query", JSON.JString (js "SELECT 2"))])
           (JSON.JObject [(js "id", JSON.JString [])])
           (QueryObject (JSON.JString (js "query_1001_1"))
              (Some (JSON.JString (js "SELECT 2")))
              None (JSON.JString (js "SELECT")) 1002)
           (QueryObject (JSON.JString (js "query_1003_2")) None
              None (JSON.JString (js "SELECT")) 1004));
    try (vm_compute; reflexivity).
  lia.
Defined.

(** * Properties of the public methods *)

(** X16: the three reply parsers accept alike.
    [parseTestScenarioResponse] returns a value exactly when
    [parseGroqResponse] returns it, and whenever [parseQueryResponse]
    returns, [parseGroqResponse] returns an array with as many
    elements as there are queries. *)
Theorem reply_parsers_accept_alike (now : nat -> number) (response : jsstring) :
  (forall value,
     parseTestScenarioResponse response = Normal value <->
     parseGroqResponse response = Normal value) /\
  (forall queries,
     parseQueryResponse now response = Normal queries ->
     exists elements,
       parseGroqResponse response = Normal (JSON.JArray elements) /\
       length queries = length elements).
Proof.
  split.
  - intros value. apply parseTestScenarioResponse_Normal.
  - intros queries Hqueries.
    destruct (parseQueryResponse_Normal_inv now response queries Hqueries)
      as (elements & Hparse & _ & Hlen & _).
    exists elements. split.
    + rewrite parseGroqResponse_parse, Hparse. reflexivity.
    + exact Hlen.
Qed.

Section PublicMethods.

Context (create : Request.t -> completion Response.t).
Context {data : Type} (stringify_rows : list data -> jsstring).
Context (stringify_knowledge : ParsedKnowledge.t -> jsstring).

Lemma on_content_Normal {A} (parser : jsstring -> completion A) error
    content (a : A) :
  on_content parser error content = Normal a <->
  exists response, content = Some response /\ parser response = Normal a.
Proof.
  unfold on_content. destruct content as [response|]; split.
  - eauto.
  - intros (r & [= <-] & H). exact H.
  - discriminate.
  - intros (r & H & _). discriminate H.
Qed.

(** What the three methods share: ask the client, read the content of
    the first choice, parse it, and report every failure by one
    error. *)
Lemma ask_and_parse {A} (parser : jsstring -> completion A)
    (request : Request.t) (inner outer : js_error) :
  (forall a,
     try_catch
       (response ← create request;
        result ← first_content response;
        on_content parser inner result)
       (fun _ => Throw outer) = Normal a <->
     exists response content,
       create request = Normal response /\
       first_content response = Normal (Some content) /\
       parser content = Normal a) /\
  (forall e,
     try_catch
       (response ← create request;
        result ← first_content response;
        on_content parser inner result)
       (fun _ => Throw outer) = Throw e -> e = outer).
Proof.
  split.
  - intros a.
    destruct (create request) as [response|e1];
      cbn [mbind completion_bind try_catch];
      [| split; [discriminate | intros (r & c & Hc & _); discriminate Hc]].
    destruct (first_content response) as [result|e2] eqn:Hfirst;
      cbn [mbind completion_bind try_catch];
      [| split; [discriminate |];
         intros (r & c & [= <-] & Hc & _); congruence].
    destruct (on_content parser inner result) as [a'|e3] eqn:Hparse;
      cbn [try_catch].
    + apply on_content_Normal in Hparse.
      destruct Hparse as (content & -> & Hparse).
      split.
      * intros [= <-]. exists response, content. auto.
      * intros (r & c & [= <-] & Hc & Hp). congruence.
    + split; [discriminate |].
      intros (r & c & [= <-] & Hc & Hp).
      rewrite Hfirst in Hc. injection Hc as ->.
      unfold on_content in Hparse. congruence.
  - intros e.
    destruct (create request) as [response|e1]; cbn [mbind completion_bind try_catch];
      [| intros [= <-]; reflexivity].
    destruct (first_content response) as [result|e2];
      cbn [mbind completion_bind try_catch]; [| intros [= <-]; reflexivity].
    destruct (on_content parser inner result); cbn [try_catch];
      [discriminate | intros [= <-]; reflexivity].
Qed.

(** X17: [parseExcelWorkbook] returns a value exactly when the
    workbook text can be made, the client answers the request that
    carries that text, the reply has a first choice with a content,
    and [parseGroqResponse] returns the value on that content.  Every
    failure on the way reaches the caller as the one [Error] 'Failed
    to parse Excel workbook'. *)
Theorem parseExcelWorkbook_returns_iff (workbookData : workbook) :
  (forall value,
     parseExcelWorkbook create workbookData = Normal value <->
     exists workbookText response content,
       convertWorkbookToText workbookData = Normal workbookText /\
       create (workbook_request workbookText) = Normal response /\
       first_content response = Normal (Some content) /\
       parseGroqResponse content = Normal value) /\
  (forall e,
     parseExcelWorkbook create workbookData = Throw e ->
     e = Failed_to_parse_Excel_workbook).
Proof.
  unfold parseExcelWorkbook.
  destruct (convertWorkbookToText workbookData) as [workbookText|e0];
    cbn [mbind completion_bind].
  - destruct (ask_and_parse parseGroqResponse (workbook_request workbookText)
                (Error (js "Invalid response format from Groq"))
                Failed_to_parse_Excel_workbook) as [Hreturns Hthrows].
    split; [| exact Hthrows].
    intros value. rewrite (Hreturns value). split.
    + intros (response & content & H). exists workbookText, response, content.
      split; [reflexivity | exact H].
    + intros (text & response & content & [= <-] & H). eauto.
  - cbn [try_catch]. split; [| intros e [= <-]; reflexivity].
    intros value. split; [discriminate |].
    intros (text & response & content & Ht & _). discriminate Ht.
Qed.

(** X18: a workbook with a sheet that cannot be serialized, such as a
    sheet with a single-cell range, is never parsed: whatever the
    client would answer, [parseExcelWorkbook] throws 'Failed to parse
    Excel workbook'. *)
Theorem parseExcelWorkbook_unreadable_sheet
    (workbookData : workbook) (sheetNames : list jsstring)
    (sheetName : jsstring) (sheet : sheet) :
  SheetNames workbookData = Some sheetNames ->
  sheetName ∈ sheetNames ->
  Sheets workbookData !! sheetName = Some sheet ->
  fails (convertSheetToText sheet) ->
  parseExcelWorkbook create workbookData = Throw Failed_to_parse_Excel_workbook.
Proof.
  intros Hnames Hin Hsheet Hfails.
  unfold parseExcelWorkbook, convertWorkbookToText. rewrite Hnames.
  rewrite (convertWorkbookToText_forEach_Throw _ _ _ _ _ Hin Hsheet Hfails).
  reflexivity.
Qed.

(** X19: [generateQueries] returns a list of queries exactly when the
    client answers the request that carries the context of the
    knowledge base and the user's request, the reply has a first
    choice with a content, and [parseQueryResponse] returns the list
    on that content.  Every failure reaches the caller as the one
    [Error] 'Failed to generate queries'. *)
Theorem generateQueries_returns_iff (now : nat -> number)
    (knowledge : ParsedKnowledge.t) (userRequest : jsstring)
    (uploadedData : option (list data)) :
  (forall queries,
     generateQueries create stringify_rows now knowledge userRequest
       uploadedData = Normal queries <->
     exists response content,
       create (queries_request
                 (buildContext stringify_rows knowledge uploadedData)
                 userRequest) = Normal response /\
       first_content response = Normal (Some content) /\
       parseQueryResponse now content = Normal queries) /\
  (forall e,
     generateQueries create stringify_rows now knowledge userRequest
       uploadedData = Throw e ->
     e = Failed_to_generate_queries).
Proof.
  exact (ask_and_parse (parseQueryResponse now)
           (queries_request
              (buildContext stringify_rows knowledge uploadedData) userRequest)
           (Error (js "Invalid query response format"))
           Failed_to_generate_queries).
Qed.

(** X20: of the uploaded rows only the first five reach the request:
    [generateQueries] gives the same result on the rows and on their
    first five. *)
Theorem generateQueries_first_five_rows (now : nat -> number)
    (knowledge : ParsedKnowledge.t) (userRequest : jsstring)
    (rows : list data) :
  buildContext stringify_rows knowledge (Some rows)
  = buildContext stringify_rows knowledge (Some (take 5 rows)) /\
  generateQueries create stringify_rows now knowledge userRequest (Some rows)
  = generateQueries create stringify_rows now knowledge userRequest
      (Some (take 5 rows)).
Proof.
  assert (Hcontext : buildContext stringify_rows knowledge (Some rows)
                     = buildContext stringify_rows knowledge
                         (Some (take 5 rows))).
  { unfold buildContext. rewrite take_take, Nat.min_id. reflexivity. }
  split; [exact Hcontext |].
  unfold generateQueries. rewrite Hcontext. reflexivity.
Qed.

(** X21: every query [generateQueries] returns has a truthy [id] and a
    truthy [category]. *)
Theorem generateQueries_truthy_id_category (now : nat -> number)
    (knowledge : ParsedKnowledge.t) (userRequest : jsstring)
    (uploadedData : option (list data)) (queries : list query_object) :
  generateQueries create stringify_rows now knowledge userRequest uploadedData
  = Normal queries ->
  Forall (fun object =>
            JSON.truthy (query_id object) = true /\
            JSON.truthy (query_category object) = true) queries.
Proof.
  intros Hqueries.
  apply (proj1 (ask_and_parse (parseQueryResponse now)
                  (queries_request
                     (buildContext stringify_rows knowledge uploadedData)
                     userRequest)
                  (Error (js "Invalid query response format"))
                  Failed_to_generate_queries)) in Hqueries.
  destruct Hqueries as (response & content & _ & _ & Hparse).
  destruct (parseQueryResponse_Normal_inv now content queries Hparse)
    as (elements & _ & _ & Hlen & Hbuilt).
  exact (built_objects_truthy elements queries Hlen Hbuilt).
Qed.

(** X22: [generateTestScenarios] returns a value exactly when the
    client answers the request that carries the text of the knowledge
    base, the reply has a first choice with a content, and
    [parseGroqResponse] would return the value on that content.  Every
    failure reaches the caller as the one [Error] 'Failed to generate
    test scenarios'. *)
Theorem generateTestScenarios_returns_iff (knowledge : ParsedKnowledge.t) :
  (forall value,
     generateTestScenarios create stringify_knowledge knowledge
     = Normal value <->
     exists response content,
       create (scenarios_request (stringify_knowledge knowledge))
       = Normal response /\
       first_content response = Normal (Some content) /\
       parseGroqResponse content = Normal value) /\
  (forall e,
     generateTestScenarios create stringify_knowledge knowledge = Throw e ->
     e = Failed_to_generate_test_scenarios).
Proof.
  destruct (ask_and_parse parseTestScenarioResponse
              (scenarios_request (stringify_knowledge knowledge))
              (Error (js "Invalid test scenario response format"))
              Failed_to_generate_test_scenarios) as [Hreturns Hthrows].
  split; [| exact Hthrows].
  intros value. unfold generateTestScenarios. rewrite (Hreturns value).
  split; intros (response & content & Hc & Hf & Hp);
    exists response, content; (split; [exact Hc |]); (split; [exact Hf |]);
    apply (parseTestScenarioResponse_Normal content value);
    exact Hp.
Qed.

End PublicMethods.

Lemma parseExcelWorkbook_unreadable_sheet_witness :
  parseExcelWorkbook (reply_with object_a_1) single_cell_workbook
  = Throw Failed_to_parse_Excel_workbook.
Proof.
  apply (parseExcelWorkbook_unreadable_sheet (reply_with object_a_1)
           single_cell_workbook [js "Sheet1"] (js "Sheet1")
           (Sheet (Some (js "A1")) cells_A1_x)).
  - reflexivity.
  - left.
  - vm_compute. reflexivity.
  - exists TypeError. vm_compute. reflexivity.
Defined.

Lemma generateQueries_truthy_id_category_witness :
  generateQueries (reply_with queries_reply) (fun _ : list unit => [])
    example_clock empty_knowledge (js "list the rows") None
  = Normal queries_reply_objects /\
  Forall (fun object =>
            JSON.truthy (query_id object) = true /\
            JSON.truthy (query_category object) = true)
         queries_reply_objects.
Proof.
  assert (Hqueries :
            generateQueries (reply_with queries_reply)
              (fun _ : list unit => []) example_clock empty_knowledge
              (js "list the rows") None
            = Normal queries_reply_objects)
    by (vm_compute; reflexivity).
  split; [exact Hqueries |].
  exact (generateQueries_truthy_id_category _ _ _ _ _ _ _ Hqueries).
Defined.
